(** * gaming-ai-assistant: the watchlist and chat front end, and the
      belief / event / context core of the specification

    The development has two parts.

    - [JS], [Game], [TrendEvent], [WatchlistPanel], [ChatPanel] and [App]
      embed the TypeScript components of the repository: every handler is
      a function from the component state (and the answer of the backend,
      where the handler awaits one) to the next state and the calls it
      makes on its parent.
    - [Core] is the backend core (Belief Store, Change Detector, Event
      Ledger, Context Assembler, Watchlist Coordinator).  Its code is not
      part of the repository sources; it is modelled from the
      specification, sections 3 and 4.

    Definitions come first, the theorems follow. *)

From Stdlib Require Import ZArith NArith Lia List String Ascii Bool.
From Stdlib Require Import DecimalString.
From Equations Require Import Equations.
From stdpp Require Import base numbers option list.
Import ListNotations.

(* ===================================================================== *)
(** * JavaScript values used by the components *)
(* ===================================================================== *)

Module JS.

(** A JavaScript string is a sequence of UTF-16 code units. *)
Abbreviation jsstring := (list N).

(** An ASCII literal as a JavaScript string. *)
Definition js (s : string) : jsstring :=
  map N_of_ascii (list_ascii_of_string s).

Definition hyphen : N := 45.

(** The class [\s] of a regular expression without flags, which is also
    what [String.prototype.trim] strips: WhiteSpace (TAB, VT, FF, SP,
    NBSP, ZWNBSP and the Unicode space separators) and LineTerminator
    (LF, CR, LS, PS). *)
Definition is_space (c : N) : bool :=
  (existsb (N.eqb c)
     [9; 10; 11; 12; 13; 32; 160; 5760; 8232; 8233; 8239; 8287; 12288; 65279]
   || ((8192 <=? c) && (c <=? 8202)))%N.

(** The rest of the input after the longest run of whitespace at its
    head: where a greedy [\s*] stops. *)
Fixpoint skip_spaces (s : jsstring) : jsstring :=
  match s with
  | c :: s' => if is_space c then skip_spaces s' else s
  | [] => []
  end.

Lemma skip_spaces_length s : length (skip_spaces s) <= length s.
Proof.
  induction s as [|c s IH]; simpl; [lia|].
  destruct (is_space c); simpl; lia.
Qed.

(** [s.trim()] *)
Definition trim (s : jsstring) : jsstring :=
  rev (skip_spaces (rev (skip_spaces s))).

(** [!s] for a string [s]: only the empty string is falsy. *)
Definition is_empty (s : jsstring) : bool :=
  match s with [] => true | _ :: _ => false end.

(** [s.replace(/\s+/g, "-")]: scanning from the left, at a whitespace
    code unit the greedy [\s+] matches the whole run, one hyphen is
    written and the scan resumes after the match; any other code unit
    is copied. *)
Equations replace_spaces (s : jsstring) : jsstring by wf (length s) lt :=
  replace_spaces [] := [];
  replace_spaces (c :: s') with is_space c := {
    | true => hyphen :: replace_spaces (skip_spaces s');
    | false => c :: replace_spaces s' }.
Next Obligation.
  intros c s' _. pose proof (skip_spaces_length s'). simpl. lia.
Qed.
Next Obligation. intros. simpl. lia. Qed.

(** A property that is [undefined], [null] or holds a value. *)
Inductive Nullable (A : Type) : Type :=
| undefined
| null
| value (a : A).
Arguments undefined {A}.
Arguments null {A}.
Arguments value {A} a.

(** [x ?? d] *)
Definition nullish {A} (x : Nullable A) (d : A) : A :=
  match x with value a => a | _ => d end.

(** The left operand of [s || d] when it is taken: [s] is a string,
    [undefined] or [null], and the empty string and the missing values
    are falsy. *)
Definition truthy (x : Nullable jsstring) : option jsstring :=
  match x with
  | value (c :: s) => Some (c :: s)
  | _ => None
  end.

(** A promise that has settled. *)
Inductive Settled (A : Type) : Type :=
| rejected
| resolved (data : A).
Arguments rejected {A}.
Arguments resolved {A} data.

(** The built-ins whose tables are not part of the repository: the
    number type with [Number(s)] and [n.toString()], and the Unicode
    case mapping [s.toLowerCase()]. *)
Class Runtime := {
  number : Type;
  Number : jsstring -> number;
  toString : number -> jsstring;
  toLowerCase : jsstring -> jsstring;
}.

(** ** A runtime for ASCII text and integer numerals

    It agrees with JavaScript on strings of ASCII code units and on
    numerals that are a plain run of decimal digits; the model is run
    on such inputs with it. *)

Inductive int_number : Type :=
| NaN
| Int (z : Z).

Definition ascii_lower (c : N) : N :=
  if ((65 <=? c) && (c <=? 90))%N then (c + 32)%N else c.

Definition digit_value (c : N) : option N :=
  if ((48 <=? c) && (c <=? 57))%N then Some (c - 48)%N else None.

Fixpoint parse_digits (acc : N) (s : jsstring) : option N :=
  match s with
  | [] => Some acc
  | c :: s' =>
      match digit_value c with
      | Some d => parse_digits (10 * acc + d)%N s'
      | None => None
      end
  end.

Definition int_Number (s : jsstring) : int_number :=
  match trim s with
  | [] => Int 0
  | t => match parse_digits 0 t with
         | Some n => Int (Z.of_N n)
         | None => NaN
         end
  end.

Definition int_toString (n : int_number) : jsstring :=
  match n with
  | NaN => js "NaN"
  | Int z => js (NilZero.string_of_int (Z.to_int z))
  end.

#[export] Instance int_runtime : Runtime := {|
  number := int_number;
  Number := int_Number;
  toString := int_toString;
  toLowerCase := map ascii_lower;
|}.

End JS.
Import JS.

(* ===================================================================== *)
(** * The records exchanged with the backend (App.tsx) *)
(* ===================================================================== *)

Module Game.
Section WithRuntime.
Context `{Runtime}.

Inductive Source : Type := steam | epic | gog | other.

(** [interface Game].  The TypeScript interface allows the optional
    properties to be missing, [null] or present. *)
Record t : Type := {
  id : jsstring;
  title : jsstring;
  source : Source;
  external_id : Nullable jsstring;
  current_price : Nullable number;
  original_price : Nullable number;
  currency : Nullable jsstring;
  discount_percent : Nullable number;
  is_tracked : bool;
}.
End WithRuntime.
End Game.

Module TrendEvent.
(** [interface TrendEvent] *)
Record t : Type := {
  id : jsstring;
  game_id : Nullable jsstring;
  type : jsstring;
  title : jsstring;
  description : jsstring;
}.
End TrendEvent.

(* ===================================================================== *)
(** * WatchlistPanel *)
(* ===================================================================== *)

Module WatchlistPanel.
Section WithRuntime.
Context `{Runtime}.

(** The component state: the two input fields and the busy flag. *)
Record State : Type := {
  title : jsstring;
  price : jsstring;
  loading : bool;
}.

(** [GET /search?q=...&limit=1] *)
Record SearchRequest : Type := {
  q : jsstring;
  limit : N;
}.

(** One entry of the search result, [{appid, name, ...}]. *)
Record SteamGame : Type := {
  appid : Nullable number;
  name : Nullable jsstring;
}.

(** [response.data] of the search: missing, or an array whose entries
    are objects (or, from a misbehaving backend, [null]). *)
Abbreviation SearchData := (Nullable (list (Nullable SteamGame))).

(** The storefront lookup as the component sees it. *)
Definition SearchApi : Type := SearchRequest -> Settled SearchData.

(** [searchSteamGame]: the first result, or [null] ([None]) when the
    request fails, when there is no result, or when reading the first
    entry throws inside the [try] block. *)
Definition searchSteamGame (api : SearchApi) (gameTitle : jsstring)
  : option SteamGame :=
  match api {| q := gameTitle; limit := 1 |} with
  | resolved results =>
      match results with
      | value (first :: _) =>
          match first with
          | value game => Some game
          | _ => None
          end
      | _ => None
      end
  | rejected => None
  end.

(** [steamGame?.name] *)
Definition steam_name (steamGame : option SteamGame) : Nullable jsstring :=
  match steamGame with
  | Some g => name g
  | None => undefined
  end.

(** [steamGame?.appid?.toString()] *)
Definition steam_appid_string (steamGame : option SteamGame)
  : Nullable jsstring :=
  match steamGame with
  | Some g =>
      match appid g with
      | value n => value (toString n)
      | _ => undefined
      end
  | None => undefined
  end.

(** The id given to a title: [title.toLowerCase().replace(/\s+/g, "-")]. *)
Definition game_id (title : jsstring) : jsstring :=
  replace_spaces (toLowerCase title).

(** The object literal [newGame] of [handleAdd]. *)
Definition newGame (st : State) (steamGame : option SteamGame) : Game.t :=
  {| Game.id := game_id (title st);
     Game.title := default (trim (title st)) (truthy (steam_name steamGame));
     Game.source := Game.steam;
     Game.external_id :=
       from_option value null (truthy (steam_appid_string steamGame));
     Game.current_price :=
       if is_empty (price st) then undefined else value (Number (price st));
     Game.original_price := undefined;
     Game.currency := value (js "RUB");
     Game.discount_percent := undefined;
     Game.is_tracked := true |}.

(** What a handler leaves behind: the next component state and the
    argument of its call to [onChange], if it made one. *)
Record Outcome : Type := {
  next : State;
  changed : option (list Game.t);
}.

(** [handleAdd] *)
Definition handleAdd (st : State) (games : list Game.t) (api : SearchApi)
  : Outcome :=
  if is_empty (trim (title st)) then {| next := st; changed := None |}
  else
    let steamGame := searchSteamGame api (trim (title st)) in
    {| next := {| title := []; price := []; loading := false |};
       changed := Some (games ++ [newGame st steamGame]) |}.

(** [handleRemove] *)
Definition handleRemove (st : State) (games : list Game.t) (id : jsstring)
  : Outcome :=
  {| next := st;
     changed :=
       Some (filter (fun g => Game.id g <> id) games) |}.

End WithRuntime.
End WatchlistPanel.

(* ===================================================================== *)
(** * ChatPanel *)
(* ===================================================================== *)

Module ChatPanel.

Inductive Role : Type := user | assistant.

Record ChatMessage : Type := {
  role : Role;
  content : jsstring;
}.

Record State : Type := {
  messages : list ChatMessage;
  input : jsstring;
  sending : bool;
}.

(** The greeting shown first (in Russian: "Hello! I am a gaming AI
    agent. Ask about games, discounts or trends."). *)
Definition greeting : jsstring :=
  [1055; 1088; 1080; 1074; 1077; 1090; 33; 32; 1071; 32; 1080; 1075; 1088;
   1086; 1074; 1086; 1081; 32; 65; 73; 8209; 1072; 1075; 1077; 1085; 1090;
   46; 32; 1047; 1072; 1076; 1072; 1081; 32; 1074; 1086; 1087; 1088; 1086;
   1089; 32; 1087; 1088; 1086; 32; 1080; 1075; 1088; 1099; 44; 32; 1089;
   1082; 1080; 1076; 1082; 1080; 32; 1080; 1083; 1080; 32; 1090; 1088;
   1077; 1085; 1076; 1099; 46; 32; 55356; 57262]%N.

(** The reply shown when the request fails ("An error occurred while
    contacting the backend. Check that the server is running."). *)
Definition backend_error : jsstring :=
  [1055; 1088; 1086; 1080; 1079; 1086; 1096; 1083; 1072; 32; 1086; 1096;
   1080; 1073; 1082; 1072; 32; 1087; 1088; 1080; 32; 1086; 1073; 1088;
   1072; 1097; 1077; 1085; 1080; 1080; 32; 1082; 32; 98; 97; 99; 107; 101;
   110; 100; 46; 32; 1055; 1088; 1086; 1074; 1077; 1088; 1100; 44; 32;
   1095; 1090; 1086; 32; 1089; 1077; 1088; 1074; 1077; 1088; 32; 1079;
   1072; 1087; 1091; 1097; 1077; 1085; 46]%N.

Definition initial : State :=
  {| messages := [{| role := assistant; content := greeting |}];
     input := [];
     sending := false |}.

(** The body of [POST /chat]. *)
Record ChatRequest : Type := {
  history : list ChatMessage;
  user_message : jsstring;
}.

(** [res.data] of [POST /chat]. *)
Record ChatResponse : Type := {
  reply : jsstring;
  events : Nullable (list TrendEvent.t);
}.

(** [handleSend] up to its [await]: the guard, the three state updates
    and the request that is posted. *)
Definition handleSend_begin (st : State) : State * option ChatRequest :=
  let text := trim (input st) in
  if is_empty text || sending st then (st, None)
  else
    let newMessages := messages st ++ [{| role := user; content := text |}] in
    let historyPayload :=
      map (fun m => {| role := role m; content := content m |}) newMessages in
    ({| messages := newMessages; input := []; sending := true |},
     Some {| history := removelast historyPayload; user_message := text |}).

(** [handleSend] after the [await], on the state the component has
    then: the [try] continuation, the [catch] and the [finally].  The
    second component lists the calls to [onEventsAppended]. *)
Definition handleSend_end (st : State) (res : Settled ChatResponse)
  : State * list (list TrendEvent.t) :=
  match res with
  | resolved data =>
      let evs := nullish (events data) [] in
      ({| messages := messages st ++ [{| role := assistant; content := reply data |}];
          input := input st;
          sending := false |},
       match evs with [] => [] | _ :: _ => [evs] end)
  | rejected =>
      ({| messages := messages st ++ [{| role := assistant; content := backend_error |}];
          input := input st;
          sending := false |},
       [])
  end.

(** What one run of [handleSend] did. *)
Record Run : Type := {
  final : State;
  posted : list ChatRequest;
  appended : list (list TrendEvent.t);
}.

(** A whole run of [handleSend] against a backend, nothing else
    touching the component in between. *)
Definition handleSend (st : State) (backend : ChatRequest -> Settled ChatResponse)
  : Run :=
  match handleSend_begin st with
  | (st1, Some req) =>
      let '(st2, calls) := handleSend_end st1 (backend req) in
      {| final := st2; posted := [req]; appended := calls |}
  | (st1, None) => {| final := st1; posted := []; appended := [] |}
  end.

End ChatPanel.

(* ===================================================================== *)
(** * App *)
(* ===================================================================== *)

Module App.
Section WithRuntime.
Context `{Runtime}.

Record State : Type := {
  games : list Game.t;
  events : list TrendEvent.t;
  loading : bool;
  error : option jsstring;
}.

(** "Error while saving the list of games." *)
Definition save_error : jsstring :=
  [1054; 1096; 1080; 1073; 1082; 1072; 32; 1087; 1088; 1080; 32; 1089;
   1086; 1093; 1088; 1072; 1085; 1077; 1085; 1080; 1080; 32; 1089; 1087;
   1080; 1089; 1082; 1072; 32; 1080; 1075; 1088; 46]%N.

(** [updateWatchlist]: the list handed over becomes the list shown;
    the answer of [POST /watchlist] is only logged, its failure sets
    the error banner. *)
Definition updateWatchlist (app : State) (updatedGames : list Game.t)
    (saved : Settled unit) : State :=
  {| games := updatedGames;
     events := events app;
     loading := loading app;
     error := match saved with
              | resolved _ => error app
              | rejected => Some save_error
              end |}.

(** The [onEventsAppended] callback handed to the chat panel. *)
Definition onEventsAppended (app : State) (newEvents : list TrendEvent.t)
  : State :=
  {| games := games app;
     events := events app ++ newEvents;
     loading := loading app;
     error := error app |}.

(** The user presses "add" in the watchlist panel rendered by [App]:
    [handleAdd] runs on the list [App] holds and its [onChange] call,
    if any, goes to [updateWatchlist]. *)
Definition add_game (app : State) (panel : WatchlistPanel.State)
    (api : WatchlistPanel.SearchApi) (saved : Settled unit)
  : State * WatchlistPanel.State :=
  let out := WatchlistPanel.handleAdd panel (games app) api in
  (match WatchlistPanel.changed out with
   | Some gs => updateWatchlist app gs saved
   | None => app
   end,
   WatchlistPanel.next out).

(** One chat turn as [App] sees it: the events a run of [handleSend]
    hands to [onEventsAppended] are appended in order. *)
Definition chat_turn (app : State) (run : ChatPanel.Run) : State :=
  fold_left onEventsAppended (ChatPanel.appended run) app.

End WithRuntime.
End App.

(* ===================================================================== *)
(** * The belief / event / context core *)
(* ===================================================================== *)

Module Core.

(** The backend that keeps the tracked games and the trend events is
    missing from the sources; only its callers (the components above)
    are there.  Every definition of this module is written from the
    specification and says which part of it. *)

(** ** Data model (specification, section 3) *)

(** Modelled from the spec: the source enum of a Game (section 3). *)
Inductive Source : Type := steam | epic | gog | other.

(** Modelled from the spec: the stable string id of a Game (section 3). *)
Abbreviation GameId := jsstring.

Module Game.
(** Modelled from the spec: the Game record of section 3; the code that
    declares it on the backend is missing.  Prices and the discount
    percentage are whole amounts, so that a negative price (the malformed
    input of section 7) is not a value of the type. *)
Record t : Type := {
  id : GameId;
  title : jsstring;
  source : Source;
  external_id : option jsstring;
  current_price : option N;
  original_price : option N;
  currency : option jsstring;
  discount_percent : option N;
  is_tracked : bool;
}.
End Game.

Module PartialGame.
(** Modelled from the spec: the "partial Game" taken by [apply]
    (section 4.2), a Game whose every attribute but the id may be absent.
    An optional attribute of the Game is absent from the update
    ([undefined]), present and empty ([null]) or present with a value. *)
Record t : Type := {
  id : GameId;
  title : option jsstring;
  source : option Source;
  external_id : Nullable jsstring;
  current_price : Nullable N;
  original_price : Nullable N;
  currency : Nullable jsstring;
  discount_percent : Nullable N;
  is_tracked : option bool;
}.
End PartialGame.

(** Modelled from the spec: the type enum of a TrendEvent (section 3). *)
Inductive EventType : Type :=
| price_drop
| price_increase
| back_in_stock
| discount_started
| discount_ended
| chat_insight.

(** Modelled from the spec: event types are compared by the
    deduplication (section 4.2). *)
#[export] Instance EventType_eq_dec : EqDecision EventType.
Proof. solve_decision. Defined.

Module TrendEvent.
(** Modelled from the spec: the TrendEvent record of section 3.  The
    generated id is the sequence number the ledger gives the event. *)
Record t : Type := {
  id : N;
  game_id : option GameId;
  type : EventType;
  title : jsstring;
  description : jsstring;
}.
End TrendEvent.

(** Modelled from the spec: the values sections 3 and 4.2 to 4.4 call
    configurable. *)
Record Config : Type := {
  (** least price change, in percent of the prior price, that is an event *)
  min_change_percent : N;
  (** length of the deduplication window *)
  cooldown : Z;
  (** number of events the ledger retains *)
  capacity : nat;
  (** number of recent events put into a chat context *)
  context_events : nat;
  (** tolerance, in percentage points, on a submitted discount *)
  discount_tolerance : N;
}.

(** Modelled from the spec: the defaults it names, a 1 % threshold, a
    cooldown of 5 minutes (in seconds) and the 10 most recent events.
    The capacity ("a few thousand") and the tolerance ("small") are left
    to the caller. *)
Definition default_config (capacity : nat) (tolerance : N) : Config :=
  {| min_change_percent := 1;
     cooldown := 300;
     capacity := capacity;
     context_events := 10;
     discount_tolerance := tolerance |}.

(** Modelled from the spec: the texts the core writes, which the
    specification leaves open: the title and the description of an event
    (section 3), and the generic reply of a failed chat turn (section 7). *)
Record Wording : Type := {
  event_title : EventType -> Game.t -> jsstring;
  event_description : EventType -> Game.t -> jsstring;
  failure_reply : jsstring;
}.

(** ** Belief Store (section 4.1) *)

Module BeliefStore.

(** Modelled from the spec: one optional field under [upsert] (section
    4.1), present in the input it overwrites (an empty field empties the
    stored one), absent it is preserved. *)
Definition overwrite {A} (new : Nullable A) (old : option A) : option A :=
  match new with
  | undefined => old
  | null => None
  | value a => Some a
  end.

(** Modelled from the spec: an optional attribute of a full Game as a
    field of an update: carried when the Game has it, left out when it
    has not. *)
Definition present {A} (o : option A) : Nullable A :=
  match o with
  | Some a => value a
  | None => undefined
  end.

(** Modelled from the spec: the merge of [upsert], "fields present in the
    input overwrite, fields absent are preserved". *)
Definition merge (prior : Game.t) (u : PartialGame.t) : Game.t :=
  {| Game.id := Game.id prior;
     Game.title := default (Game.title prior) (PartialGame.title u);
     Game.source := default (Game.source prior) (PartialGame.source u);
     Game.external_id :=
       overwrite (PartialGame.external_id u) (Game.external_id prior);
     Game.current_price :=
       overwrite (PartialGame.current_price u) (Game.current_price prior);
     Game.original_price :=
       overwrite (PartialGame.original_price u) (Game.original_price prior);
     Game.currency := overwrite (PartialGame.currency u) (Game.currency prior);
     Game.discount_percent :=
       overwrite (PartialGame.discount_percent u) (Game.discount_percent prior);
     Game.is_tracked := default (Game.is_tracked prior) (PartialGame.is_tracked u) |}.

(** Modelled from the spec: the record a previously unseen id starts
    from (section 3, lifecycle).  The specification does not name the
    defaults; here a new game is tracked, is labelled by its id and has
    no known storefront. *)
Definition fresh (id : GameId) : Game.t :=
  {| Game.id := id;
     Game.title := id;
     Game.source := other;
     Game.external_id := None;
     Game.current_price := None;
     Game.original_price := None;
     Game.currency := None;
     Game.discount_percent := None;
     Game.is_tracked := true |}.

(** Modelled from the spec: the derived discount percentage of section
    3, the percentage by which [current] is below [original], rounded
    down. *)
Definition derived_percent (original current : N) : N :=
  Z.to_N ((100 * (Z.of_N original - Z.of_N current)) / Z.of_N original).

(** Modelled from the spec: "within a small tolerance" (section 3), [d]
    is the derived percentage within [tol] percentage points. *)
Definition consistent (tol original current d : N) : bool :=
  (Z.abs (Z.of_N d * Z.of_N original
          - 100 * (Z.of_N original - Z.of_N current))
   <=? Z.of_N tol * Z.of_N original)%Z.

(** Modelled from the spec: the invariant of section 3.  When both prices
    are present, a discount that is present and is not the derived
    percentage within the tolerance is recomputed. *)
Definition trusted (cfg : Config) (g : Game.t) : Game.t :=
  match Game.original_price g, Game.current_price g, Game.discount_percent g with
  | Some o, Some c, Some d =>
      if consistent (discount_tolerance cfg) o c d then g
      else
        {| Game.id := Game.id g;
           Game.title := Game.title g;
           Game.source := Game.source g;
           Game.external_id := Game.external_id g;
           Game.current_price := Game.current_price g;
           Game.original_price := Game.original_price g;
           Game.currency := Game.currency g;
           Game.discount_percent := Some (derived_percent o c);
           Game.is_tracked := Game.is_tracked g |}
  | _, _, _ => g
  end.

(** Modelled from the spec: the Belief Store (section 4.1), its records
    in insertion order. *)
Abbreviation Store := (list Game.t).

(** Modelled from the spec: [get(id) -> Game | not found]. *)
Definition get (id : GameId) (store : Store) : option Game.t :=
  List.find (fun g => bool_decide (Game.id g = id)) store.

(** Modelled from the spec: the write of [upsert] (section 4.1).  The
    record with the id of [g] is replaced where it stands; a record with
    a new id goes last. *)
Fixpoint put (g : Game.t) (store : Store) : Store :=
  match store with
  | [] => [g]
  | h :: rest =>
      if bool_decide (Game.id h = Game.id g) then g :: rest
      else h :: put g rest
  end.

(** Modelled from the spec: [upsert(game) -> Game], the idempotent merge
    by id. *)
Definition upsert (cfg : Config) (u : PartialGame.t) (store : Store)
  : Store * Game.t :=
  let g :=
    trusted cfg
      match get (PartialGame.id u) store with
      | Some prior => merge prior u
      | None => merge (fresh (PartialGame.id u)) u
      end in
  (put g store, g).

(** Modelled from the spec: [list(trackedOnly)], in insertion order. *)
Definition listGames (trackedOnly : bool) (store : Store) : list Game.t :=
  if trackedOnly then List.filter Game.is_tracked store else store.

(** Modelled from the spec: [remove(id) -> ok | not found]. *)
Definition remove (id : GameId) (store : Store) : option Store :=
  match get id store with
  | Some _ => Some (List.filter (fun g => negb (bool_decide (Game.id g = id))) store)
  | None => None
  end.

(** Modelled from the spec: the logical deletion of section 3, the
    tracked flag is cleared. *)
Definition untrack (g : Game.t) : Game.t :=
  {| Game.id := Game.id g;
     Game.title := Game.title g;
     Game.source := Game.source g;
     Game.external_id := Game.external_id g;
     Game.current_price := Game.current_price g;
     Game.original_price := Game.original_price g;
     Game.currency := Game.currency g;
     Game.discount_percent := Game.discount_percent g;
     Game.is_tracked := false |}.

End BeliefStore.

(** ** Event Ledger (section 4.3) *)

Module EventLedger.

(** Modelled from the spec: an event as the ledger retains it (section
    4.3), with the time of its append. *)
Record Entry : Type := {
  at_time : Z;
  event : TrendEvent.t;
}.

(** Modelled from the spec: the Event Ledger (section 4.3), the
    retained entries, oldest first, and the next id to give. *)
Record t : Type := {
  entries : list Entry;
  next_id : N;
}.

(** Modelled from the spec: the ledger before its first append. *)
Definition empty : t := {| entries := []; next_id := 0 |}.

(** Modelled from the spec: the argument of [append] (section 4.3), an
    event before the ledger gives it its id. *)
Record Draft : Type := {
  game_id : option GameId;
  type : EventType;
  title : jsstring;
  description : jsstring;
}.

(** Modelled from the spec: the bounded retention of section 4.3, the
    [n] most recent elements of a sequence that is most-recent-last. *)
Definition most_recent {A} (n : nat) (l : list A) : list A :=
  drop (length l - n) l.

(** Modelled from the spec: [append(event)] with bounded retention, the
    oldest events are evicted once the ledger exceeds its capacity. *)
Definition append (cfg : Config) (now : Z) (d : Draft) (L : t)
  : t * TrendEvent.t :=
  let ev :=
    {| TrendEvent.id := next_id L;
       TrendEvent.game_id := game_id d;
       TrendEvent.type := type d;
       TrendEvent.title := title d;
       TrendEvent.description := description d |} in
  ({| entries :=
        most_recent (capacity cfg)
          (entries L ++ [{| at_time := now; event := ev |}]);
      next_id := N.succ (next_id L) |},
   ev).

(** Modelled from the spec: a sequence of appends (section 8), each at
    its time; the events come back in the order of their appends. *)
Fixpoint append_all (cfg : Config) (ds : list (Z * Draft)) (L : t)
  : t * list TrendEvent.t :=
  match ds with
  | [] => (L, [])
  | (now, d) :: rest =>
      let '(L1, e) := append cfg now d L in
      let '(L2, es) := append_all cfg rest L1 in
      (L2, e :: es)
  end.

(** Modelled from the spec: [list(limit, sinceId?)], most-recent-last.
    With a cursor only the events newer than it are returned; a cursor
    older than the retained window returns the whole window. *)
Definition listEvents (limit : nat) (sinceId : option N) (L : t)
  : list TrendEvent.t :=
  let evs := map event (entries L) in
  let newer :=
    match sinceId with
    | Some cursor => List.filter (fun e => (cursor <? TrendEvent.id e)%N) evs
    | None => evs
    end in
  most_recent limit newer.

End EventLedger.

(** ** The state of the core and its operations *)

(** Modelled from the spec: what the deduplication of section 4.2 needs
    to know of an append: the game, the type and the time. *)
Record Stamp : Type := {
  game : option GameId;
  kind : EventType;
  time : Z;
}.

(** Modelled from the spec: the stamp of an event appended at [now]. *)
Definition stamp (now : Z) (ev : TrendEvent.t) : Stamp :=
  {| game := TrendEvent.game_id ev;
     kind := TrendEvent.type ev;
     time := now |}.

(** Modelled from the spec: the shared mutable state of section 5, the
    Belief Store and the Event Ledger, and the cooldown state of
    sections 4.2 and 6: the stamp of every append, whether the ledger
    still retains the event or has evicted it. *)
Record State : Type := {
  store : BeliefStore.Store;
  ledger : EventLedger.t;
  appended : list Stamp;
}.

(** Modelled from the spec: the fresh store of section 8. *)
Definition initial : State :=
  {| store := []; ledger := EventLedger.empty; appended := [] |}.

(** Modelled from the spec: an operation of the core, run inside the one
    critical section of section 5: it reads the state and leaves a
    state. *)
Definition Op (A : Type) : Type := State -> A * State.

(** Modelled from the spec: an operation that only answers. *)
#[export] Instance Op_ret : MRet Op := fun A a s => (a, s).

(** Modelled from the spec: one operation after the other. *)
#[export] Instance Op_bind : MBind Op :=
  fun A B k m s => let '(a, s') := m s in k a s'.

(** Modelled from the spec: a read of the state. *)
Definition read : Op State := fun s => (s, s).

(** Modelled from the spec: a write of the store and the ledger at
    once. *)
Definition write (s : State) : Op unit := fun _ => (tt, s).

(** ** Change Detector (section 4.2) *)

Module ChangeDetector.

(** Modelled from the spec: the priority order of the tie-break (section
    4.2), highest first. *)
Definition priority : list EventType :=
  [discount_started; price_drop; price_increase; discount_ended; back_in_stock].

(** Modelled from the spec: the prior current_price, absent when there
    is no prior record or when the record has no price. *)
Definition prior_price (prior : option Game.t) : option N :=
  prior ≫= Game.current_price.

(** Modelled from the spec: the percentage threshold of section 4.2, the
    change from [from] to [to] is at least [pct] percent of [from]. *)
Definition at_least_percent (pct from to : N) : bool :=
  (Z.of_N pct * Z.of_N from <=? 100 * Z.abs (Z.of_N to - Z.of_N from))%Z.

(** Modelled from the spec: a discount is on, "discount_percent > 0". *)
Definition positive (d : option N) : bool :=
  match d with
  | Some d => (0 <? d)%N
  | None => false
  end.

(** Modelled from the spec: the update carries the field, with a value
    or empty. *)
Definition carried {A} (x : Nullable A) : bool :=
  match x with
  | undefined => false
  | _ => true
  end.

(** Modelled from the spec: the rules of section 4.2, one per event type;
    [fires cfg prior u merged ty] tells whether the rule of [ty] fires
    when the update [u] meets the prior record and gives the merged Game.
    A field the update leaves out is preserved by the merge (section 4.1)
    and fires nothing: the discount ends when the update reports it, as 0
    or as empty, where the prior record had a positive one.  The discount
    is read from the merged Game, where a submitted percentage that the
    prices contradict has been recomputed (section 3). *)
Definition fires (cfg : Config) (prior : option Game.t) (u : PartialGame.t)
    (merged : Game.t) (ty : EventType) : bool :=
  match ty with
  | discount_started =>
      match prior_price prior, PartialGame.current_price u with
      | None, value _ => positive (Game.discount_percent merged)
      | _, _ => false
      end
  | discount_ended =>
      positive (prior ≫= Game.discount_percent)
      && carried (PartialGame.discount_percent u)
      && negb (positive (Game.discount_percent merged))
  | price_drop =>
      match prior_price prior, PartialGame.current_price u with
      | Some p, value n =>
          (n <? p)%N && at_least_percent (min_change_percent cfg) p n
      | _, _ => false
      end
  | price_increase =>
      match prior_price prior, PartialGame.current_price u with
      | Some p, value n =>
          (p <? n)%N && at_least_percent (min_change_percent cfg) p n
      | _, _ => false
      end
  | back_in_stock =>
      match prior, PartialGame.current_price u with
      | Some g, value _ =>
          Game.is_tracked g && bool_decide (Game.current_price g = None)
      | _, _ => false
      end
  | chat_insight => false
  end.

(** Modelled from the spec: the rules that fire from one update, in
    priority order. *)
Definition fired (cfg : Config) (prior : option Game.t) (u : PartialGame.t)
    (merged : Game.t) : list EventType :=
  List.filter (fires cfg prior u merged) priority.

(** Modelled from the spec: the tie-break, only the highest-priority
    applicable event. *)
Definition detect (cfg : Config) (prior : option Game.t) (u : PartialGame.t)
    (merged : Game.t) : option EventType :=
  head (fired cfg prior u merged).


(** Modelled from the spec: the deduplication, decided on the stamps of
    all appends. *)
Definition suppressed (cfg : Config) (now : Z) (id : GameId) (ty : EventType)
    (stamps : list Stamp) : bool :=
  existsb
    (fun st =>
       bool_decide (game st = Some id)
       && bool_decide (kind st = ty)
       && (now - time st <? cooldown cfg)%Z)
    stamps.

(** Modelled from the spec: the event of type [ty] about the game [g]. *)
Definition draft (w : Wording) (ty : EventType) (g : Game.t)
  : EventLedger.Draft :=
  {| EventLedger.game_id := Some (Game.id g);
     EventLedger.type := ty;
     EventLedger.title := event_title w ty g;
     EventLedger.description := event_description w ty g |}.

(** Modelled from the spec: [apply(update) -> (Game, optional TrendEvent)].
    The store takes the merged Game; on a fire that is not suppressed the
    event is appended and stamped, in the same write. *)
Definition apply (cfg : Config) (w : Wording) (now : Z) (u : PartialGame.t)
  : Op (Game.t * option TrendEvent.t) :=
  core ← read;
  let prior := BeliefStore.get (PartialGame.id u) (store core) in
  let '(store', merged) := BeliefStore.upsert cfg u (store core) in
  match detect cfg prior u merged with
  | Some ty =>
      if suppressed cfg now (PartialGame.id u) ty (appended core) then
        write {| store := store';
                 ledger := ledger core;
                 appended := appended core |};;
        mret (merged, None)
      else
        let '(ledger', ev) :=
          EventLedger.append cfg now (draft w ty merged) (ledger core) in
        write {| store := store';
                 ledger := ledger';
                 appended := appended core ++ [stamp now ev] |};;
        mret (merged, Some ev)
  | None =>
      write {| store := store';
               ledger := ledger core;
               appended := appended core |};;
      mret (merged, None)
  end.

End ChangeDetector.

(** ** Context Assembler (section 4.4) *)

Module ContextAssembler.

(** Modelled from the spec: the role of a ConversationTurn (section 3). *)
Inductive Role : Type := user | assistant.

(** Modelled from the spec: ConversationTurn (section 3). *)
Record ConversationTurn : Type := {
  role : Role;
  content : jsstring;
}.

(** Modelled from the spec: the summary of a tracked game in the context
    (section 4.4): title, price, discount. *)
Record GameSummary : Type := {
  title : jsstring;
  price : option N;
  discount : option N;
}.

(** Modelled from the spec: the ContextPayload of section 4.4. *)
Record ContextPayload : Type := {
  games : list GameSummary;
  recent_events : list TrendEvent.t;
  history : list ConversationTurn;
  user_message : jsstring;
}.

(** Modelled from the spec: the summary of one game. *)
Definition summary (g : Game.t) : GameSummary :=
  {| title := Game.title g;
     price := Game.current_price g;
     discount := Game.discount_percent g |}.

(** Modelled from the spec: [buildContext(history, userMessage)], the
    summary of the tracked games and the most recent N ledger events with
    the history and the new message. *)
Definition buildContext (cfg : Config) (history : list ConversationTurn)
    (userMessage : jsstring) : Op ContextPayload :=
  core ← read;
  mret {| games := map summary (BeliefStore.listGames true (store core));
          recent_events :=
            EventLedger.listEvents (context_events cfg) None (ledger core);
          history := history;
          user_message := userMessage |}.

(** Modelled from the spec: what [extractFacts] returns (section 4.4), a
    partial Game or an event. *)
Inductive Fact : Type :=
| GameFact (u : PartialGame.t)
| EventFact (d : EventLedger.Draft).

(** Modelled from the spec: the language-model collaborator of section
    6, [complete(contextPayload)]: the answer to the first call and to
    the retry, [None] when the call fails or times out. *)
Definition LanguageModel : Type := nat -> ContextPayload -> option jsstring.

(** Modelled from the spec: "retryable-once" (section 6), the call is
    retried once, then it is a failure. *)
Definition complete (llm : LanguageModel) (p : ContextPayload) : option jsstring :=
  match llm 0 p with
  | Some text => Some text
  | None => llm 1 p
  end.

(** Modelled from the spec: a fact is fed into the Change Detector
    (section 4.4); an event fact goes to the ledger. *)
Definition absorb (cfg : Config) (w : Wording) (now : Z) (f : Fact)
  : Op (list TrendEvent.t) :=
  match f with
  | GameFact u =>
      r ← ChangeDetector.apply cfg w now u;
      mret (option_list (snd r))
  | EventFact d =>
      core ← read;
      let '(ledger', ev) := EventLedger.append cfg now d (ledger core) in
      write {| store := store core;
               ledger := ledger';
               appended := appended core ++ [stamp now ev] |};;
      mret [ev]
  end.

(** Modelled from the spec: the facts of one reply, in order. *)
Fixpoint absorb_all (cfg : Config) (w : Wording) (now : Z) (fs : list Fact)
  : Op (list TrendEvent.t) :=
  match fs with
  | [] => mret []
  | f :: rest =>
      evs ← absorb cfg w now f;
      more ← absorb_all cfg w now rest;
      mret (evs ++ more)
  end.

(** Modelled from the spec: a chat turn.  The context is built, the
    language model is called outside any write, and only the facts of a
    reply that arrived are applied; a failed call yields the generic
    failure reply and no facts. *)
Definition chat (cfg : Config) (w : Wording) (llm : LanguageModel)
    (extractFacts : jsstring -> ContextPayload -> list Fact)
    (now : Z) (history : list ConversationTurn) (userMessage : jsstring)
  : Op (jsstring * list TrendEvent.t) :=
  payload ← buildContext cfg history userMessage;
  match complete llm payload with
  | Some text =>
      evs ← absorb_all cfg w now (extractFacts text payload);
      mret (text, evs)
  | None => mret (failure_reply w, [])
  end.

End ContextAssembler.

(** ** Watchlist Coordinator (section 4.5) *)

Module WatchlistCoordinator.

(** Modelled from the spec: a Game submitted to [replaceAll] (section
    4.5) as the update that carries every attribute it has. *)
Definition as_update (g : Game.t) : PartialGame.t :=
  {| PartialGame.id := Game.id g;
     PartialGame.title := Some (Game.title g);
     PartialGame.source := Some (Game.source g);
     PartialGame.external_id := BeliefStore.present (Game.external_id g);
     PartialGame.current_price := BeliefStore.present (Game.current_price g);
     PartialGame.original_price := BeliefStore.present (Game.original_price g);
     PartialGame.currency := BeliefStore.present (Game.currency g);
     PartialGame.discount_percent :=
       BeliefStore.present (Game.discount_percent g);
     PartialGame.is_tracked := Some (Game.is_tracked g) |}.

(** Modelled from the spec: every submitted Game goes through [apply],
    in order. *)
Fixpoint apply_all (cfg : Config) (w : Wording) (now : Z) (games : list Game.t)
  : Op unit :=
  match games with
  | [] => mret tt
  | g :: rest =>
      ChangeDetector.apply cfg w now (as_update g);;
      apply_all cfg w now rest
  end.

(** Modelled from the spec: the ids of the store that the input does not
    name have their tracked flag cleared (section 4.5). *)
Definition clear_absent (games : list Game.t) (s : BeliefStore.Store)
  : BeliefStore.Store :=
  map (fun g =>
         if bool_decide (Game.id g ∈ map Game.id games) then g
         else BeliefStore.untrack g) s.

(** Modelled from the spec: [replaceAll(games)].  New ids and ids present
    on both sides go through [apply]; ids only the store has lose their
    tracked flag; the post-merge set is returned. *)
Definition replaceAll (cfg : Config) (w : Wording) (now : Z)
    (games : list Game.t) : Op (list Game.t) :=
  apply_all cfg w now games;;
  core ← read;
  write {| store := clear_absent games (store core);
           ledger := ledger core;
           appended := appended core |};;
  after ← read;
  mret (BeliefStore.listGames false (store after)).

End WatchlistCoordinator.

End Core.

(* ===================================================================== *)
(** * The id of a title, in the words of the data model *)
(* ===================================================================== *)

Module IdSpec.

(** The maximal runs of a string, each with its class: [true] for a run
    of whitespace, [false] for a run of other code units. *)
Fixpoint runs (s : jsstring) : list (bool * jsstring) :=
  match s with
  | [] => []
  | c :: s' =>
      match runs s' with
      | (b, r) :: rs =>
          if Bool.eqb (is_space c) b then (b, c :: r) :: rs
          else (is_space c, [c]) :: (b, r) :: rs
      | [] => [(is_space c, [c])]
      end
  end.

(** Two neighbours in a list of runs differ in class. *)
Fixpoint alternating (rs : list (bool * jsstring)) : Prop :=
  match rs with
  | (b, _) :: (((b', _) :: _) as rest) => b <> b' /\ alternating rest
  | _ => True
  end.

(** Every run of whitespace is replaced by one hyphen. *)
Definition hyphenate (rs : list (bool * jsstring)) : jsstring :=
  concat (map (fun '(ws, r) => if ws : bool then [hyphen] else r) rs).

(** The normalized title: lowercased, every run of whitespace replaced
    by a hyphen. *)
Definition normalized `{Runtime} (title : jsstring) : jsstring :=
  hyphenate (runs (toLowerCase title)).

End IdSpec.

(* ===================================================================== *)
(** * Concrete inputs on which the model is run *)
(* ===================================================================== *)

Module Scenario.

(** The watchlist panel with a title typed and the price left empty. *)
Definition typed (title : string) : WatchlistPanel.State :=
  {| WatchlistPanel.title := js title;
     WatchlistPanel.price := [];
     WatchlistPanel.loading := false |}.

(** A storefront lookup that fails, and one that finds nothing. *)
Definition lookup_down : WatchlistPanel.SearchApi := fun _ => rejected.
Definition lookup_empty : WatchlistPanel.SearchApi := fun _ => resolved (value []).

Definition empty_app : App.State :=
  {| App.games := []; App.events := []; App.loading := false; App.error := None |}.

(** The chat panel with only blanks typed. *)
Definition blank_chat : ChatPanel.State :=
  {| ChatPanel.messages := ChatPanel.messages ChatPanel.initial;
     ChatPanel.input := js "   ";
     ChatPanel.sending := false |}.

Definition chat_down : ChatPanel.ChatRequest -> Settled ChatPanel.ChatResponse :=
  fun _ => rejected.

(** The core with the defaults of the specification, a ledger of
    capacity 3 and a tolerance of one percentage point. *)
Definition config : Core.Config := Core.default_config 3 1.

Definition wording : Core.Wording :=
  {| Core.event_title := fun _ g => Core.Game.title g;
     Core.event_description := fun _ g => Core.Game.id g;
     Core.failure_reply := js "The assistant is unavailable." |}.

(** An update of the game [name] that carries a price, a discount
    percentage, both or neither, and nothing else. *)
Definition update (name : string) (price discount : option N)
  : Core.PartialGame.t :=
  {| Core.PartialGame.id := js name;
     Core.PartialGame.title := None;
     Core.PartialGame.source := None;
     Core.PartialGame.external_id := undefined;
     Core.PartialGame.current_price := Core.BeliefStore.present price;
     Core.PartialGame.original_price := undefined;
     Core.PartialGame.currency := undefined;
     Core.PartialGame.discount_percent := Core.BeliefStore.present discount;
     Core.PartialGame.is_tracked := None |}.

(** Such an update of the game "portal". *)
Definition portal (price discount : option N) : Core.PartialGame.t :=
  update "portal" price discount.

(** The state a fresh core with the configuration [cfg] reaches by
    applying the updates in order, each at its time. *)
Definition replay_with (cfg : Core.Config)
    (steps : list (Z * Core.PartialGame.t)) : Core.State :=
  fold_left
    (fun s '(t, u) => snd (Core.ChangeDetector.apply cfg wording t u s))
    steps Core.initial.

(** The types of the events the updates emit on a fresh core with the
    configuration [cfg]. *)
Definition emitted_with (cfg : Core.Config)
    (steps : list (Z * Core.PartialGame.t)) : list (option Core.EventType) :=
  fst
    (fold_left
       (fun '(out, s) '(t, u) =>
          let r := Core.ChangeDetector.apply cfg wording t u s in
          (out ++ [Core.TrendEvent.type <$> snd (fst r)], snd r))
       steps ([], Core.initial)).

(** The same under [config]. *)
Definition replay (steps : list (Z * Core.PartialGame.t)) : Core.State :=
  replay_with config steps.

Definition emitted (steps : list (Z * Core.PartialGame.t))
  : list (option Core.EventType) :=
  emitted_with config steps.

(** A core whose ledger retains no event at all. *)
Definition forgetful : Core.Config := Core.default_config 0 1.

(** A game whose price falls twice within two seconds. *)
Definition two_drops : list (Z * Core.PartialGame.t) :=
  [(0%Z, portal (Some 1000%N) (Some 20%N));
   (10%Z, portal (Some 900%N) None);
   (11%Z, portal (Some 800%N) None)].

(** A price drop of "portal", then three other games turn up discounted
    and push its event out of a ledger of capacity 3, then "portal" drops
    again, all within a minute. *)
Definition burst : list (Z * Core.PartialGame.t) :=
  [(0%Z, portal (Some 1020%N) None);
   (10%Z, portal (Some 1000%N) None);
   (20%Z, update "hades" (Some 500%N) (Some 20%N));
   (21%Z, update "celeste" (Some 400%N) (Some 10%N));
   (22%Z, update "braid" (Some 300%N) (Some 50%N));
   (50%Z, portal (Some 980%N) None)].

(** A discounted game whose discount ends and comes back, then whose
    price drops and rises again, ten seconds apart. *)
Definition busy_minute : list (Z * Core.PartialGame.t) :=
  [(0%Z, portal (Some 1000%N) (Some 10%N));
   (10%Z, portal None (Some 0%N));
   (20%Z, portal None (Some 10%N));
   (30%Z, portal (Some 900%N) (Some 10%N));
   (40%Z, portal (Some 1000%N) (Some 10%N))].

(** A game first seen at 1000 with a discount of 20 percent. *)
Definition discounted : list (Z * Core.PartialGame.t) :=
  [(0%Z, portal (Some 1000%N) (Some 20%N))].

(** A game first seen at 1000 without a discount. *)
Definition full_price : list (Z * Core.PartialGame.t) :=
  [(0%Z, portal (Some 1000%N) None)].


(** A language model that is down, and one that answers. *)
Definition model_down : Core.ContextAssembler.LanguageModel :=
  fun _ _ => None.
Definition model_up : Core.ContextAssembler.LanguageModel :=
  fun _ _ => Some (js "Portal is now 900.").

(** A fact extraction that reads one price out of every reply. *)
Definition one_fact (reply : jsstring) (p : Core.ContextAssembler.ContextPayload)
  : list Core.ContextAssembler.Fact :=
  [Core.ContextAssembler.GameFact (portal (Some 900%N) None)].

End Scenario.

(* ===================================================================== *)
(** * What the panels render *)
(* ===================================================================== *)

Module WatchlistView.
Import WatchlistPanel.
Section WithRuntime.
Context `{Runtime}.

(** "price unknown" *)
Definition price_unknown : jsstring :=
  [1094; 1077; 1085; 1072; 32; 1085; 1077; 1080; 1079; 1074; 1077; 1089;
   1090; 1085; 1072]%N.

(** The line under the title of a game,
    [g.current_price != null ? `${g.current_price} ${g.currency ?? "RUB"}`
     : "price unknown"]. *)
Definition price_label (g : Game.t) : jsstring :=
  match Game.current_price g with
  | value p => toString p ++ [32%N] ++ nullish (Game.currency g) (js "RUB")
  | _ => price_unknown
  end.

(** One row of the list: its React key, the title and the price line. *)
Definition rows (games : list Game.t) : list (jsstring * jsstring * jsstring) :=
  map (fun g => (Game.id g, Game.title g, price_label g)) games.

(** The remove button of the row at position [row]:
    [onClick={() => handleRemove(g.id)}]. *)
Definition click_remove (st : State) (games : list Game.t) (row : nat)
  : Outcome :=
  match games !! row with
  | Some g => handleRemove st games (Game.id g)
  | None => {| next := st; changed := None |}
  end.

End WithRuntime.
End WatchlistView.

Module EventsPanel.

(** The events in the order they are drawn: [events.slice().reverse()],
    a reversed copy. *)
Definition rendered (events : list TrendEvent.t) : list TrendEvent.t :=
  rev events.

(** [events.length === 0]: the "no events yet" notice is drawn. *)
Definition notice (events : list TrendEvent.t) : bool :=
  match events with [] => true | _ :: _ => false end.

End EventsPanel.

(* ===================================================================== *)
(** * App: loading, polling and the actions that reach its state *)
(* ===================================================================== *)

Module AppActions.
Section WithRuntime.
Context `{Runtime}.

(** [watchlistRes.data], an object with a [games] property. *)
Record WatchlistBody : Type := {
  games : Nullable (list Game.t);
}.

(** "Could not load the data from the backend. Check that the server is
    running on port 8000." *)
Definition load_error : jsstring :=
  [1053; 1077; 32; 1091; 1076; 1072; 1083; 1086; 1089; 1100; 32; 1079;
   1072; 1075; 1088; 1091; 1079; 1080; 1090; 1100; 32; 1076; 1072; 1085;
   1085; 1099; 1077; 32; 1089; 32; 98; 97; 99; 107; 101; 110; 100; 46; 32;
   1055; 1088; 1086; 1074; 1077; 1088; 1100; 44; 32; 1095; 1090; 1086; 32;
   1089; 1077; 1088; 1074; 1077; 1088; 32; 1079; 1072; 1087; 1091; 1097;
   1077; 1085; 32; 1085; 1072; 32; 56; 48; 48; 48; 32; 1087; 1086; 1088;
   1090; 1091; 46]%N.

(** [loadInitialData] up to its [await]: the busy flag goes up and the
    error banner is cleared; the two requests are on their way. *)
Definition loadInitialData_started (app : App.State) : App.State :=
  {| App.games := App.games app;
     App.events := App.events app;
     App.loading := true;
     App.error := None |}.

(** [loadInitialData] from its [await] on, once both requests of its
    [Promise.all] have settled; [app] is the state at that moment.  The
    [try] block sets both lists and leaves the error banner alone; a
    rejected request, or a watchlist answer without a body (reading
    [.games] throws), goes to the [catch], which sets the banner; the
    [finally] takes the busy flag down. *)
Definition loadInitialData_settled (app : App.State)
    (watchlistRes : Settled (Nullable WatchlistBody))
    (eventsRes : Settled (Nullable (list TrendEvent.t))) : App.State :=
  match watchlistRes, eventsRes with
  | resolved (value body), resolved data =>
      {| App.games := nullish (games body) [];
         App.events := nullish data [];
         App.loading := false;
         App.error := App.error app |}
  | _, _ =>
      {| App.games := App.games app;
         App.events := App.events app;
         App.loading := false;
         App.error := Some load_error |}
  end.

(** [loadInitialData] when nothing else reaches the state while the
    requests are in flight. *)
Definition loadInitialData (app : App.State)
    (watchlistRes : Settled (Nullable WatchlistBody))
    (eventsRes : Settled (Nullable (list TrendEvent.t))) : App.State :=
  loadInitialData_settled (loadInitialData_started app) watchlistRes eventsRes.

(** [updateWatchlist] up to its [await]: the list handed over becomes
    the list shown; the request is on its way. *)
Definition updateWatchlist_started (app : App.State)
    (updatedGames : list Game.t) : App.State :=
  {| App.games := updatedGames;
     App.events := App.events app;
     App.loading := App.loading app;
     App.error := App.error app |}.

(** [updateWatchlist] from its [await] on; [app] is the state at that
    moment.  The answer is only logged, a failure sets the error
    banner. *)
Definition updateWatchlist_settled (app : App.State) (saved : Settled unit)
  : App.State :=
  match saved with
  | resolved _ => app
  | rejected =>
      {| App.games := App.games app;
         App.events := App.events app;
         App.loading := App.loading app;
         App.error := Some App.save_error |}
  end.

(** The callback of [setInterval]: the events are fetched again; a
    failure is only logged. *)
Definition poll (app : App.State)
    (eventsRes : Settled (Nullable (list TrendEvent.t))) : App.State :=
  match eventsRes with
  | resolved data =>
      {| App.games := App.games app;
         App.events := nullish data [];
         App.loading := App.loading app;
         App.error := App.error app |}
  | rejected => app
  end.

(** What reaches the state of [App], one action for every stretch of
    code that runs without an [await]: the mount and the refresh button
    ([loadInitialData], when it is called and when its requests have
    settled), the interval (when its request has settled), the
    [onChange] of the watchlist panel ([updateWatchlist], when it is
    called and when its request has settled) and the [onEventsAppended]
    of the chat panel. *)
Inductive Action : Type :=
| LoadStarted
| LoadSettled (watchlistRes : Settled (Nullable WatchlistBody))
              (eventsRes : Settled (Nullable (list TrendEvent.t)))
| Tick (eventsRes : Settled (Nullable (list TrendEvent.t)))
| WatchlistChanged (updatedGames : list Game.t)
| SaveSettled (saved : Settled unit)
| EventsAppended (newEvents : list TrendEvent.t).

Definition step (app : App.State) (a : Action) : App.State :=
  match a with
  | LoadStarted => loadInitialData_started app
  | LoadSettled w e => loadInitialData_settled app w e
  | Tick e => poll app e
  | WatchlistChanged gs => updateWatchlist_started app gs
  | SaveSettled saved => updateWatchlist_settled app saved
  | EventsAppended evs => App.onEventsAppended app evs
  end.

Definition run (actions : list Action) (app : App.State) : App.State :=
  fold_left step actions app.

(** The actions of [loadInitialData]. *)
Definition is_load (a : Action) : bool :=
  match a with LoadStarted | LoadSettled _ _ => true | _ => false end.

(** The actions of the interval and of the chat panel. *)
Definition is_background (a : Action) : bool :=
  match a with Tick _ | EventsAppended _ => true | _ => false end.

(** A poll whose request failed. *)
Definition is_failed_poll (a : Action) : bool :=
  match a with Tick rejected => true | _ => false end.

(** The actions with the failed polls left out. *)
Definition without_failed_polls (actions : list Action) : list Action :=
  List.filter (fun a => negb (is_failed_poll a)) actions.

(** The failure of a save. *)
Definition is_failed_save (a : Action) : bool :=
  match a with SaveSettled rejected => true | _ => false end.

End WithRuntime.
End AppActions.

(* ===================================================================== *)
(** * The chat panel as the user drives it *)
(* ===================================================================== *)

Module ChatMachine.
Import ChatPanel.

(** The three quick actions: "show the games with the largest
    discounts", "what is popular among RPGs now?", "is it worth buying
    the games I monitor now?". *)
Inductive Quick : Type := Discounts | TrendsRpg | WorthBuying.

Definition quick_text (q : Quick) : jsstring :=
  match q with
  | Discounts =>
      [1055; 1086; 1082; 1072; 1078; 1080; 32; 1080; 1075; 1088; 1099; 32;
       1089; 32; 1089; 1072; 1084; 1099; 1084; 1080; 32; 1073; 1086; 1083;
       1100; 1096; 1080; 1084; 1080; 32; 1089; 1082; 1080; 1076; 1082; 1072;
       1084; 1080]%N
  | TrendsRpg =>
      [1063; 1090; 1086; 32; 1089; 1077; 1081; 1095; 1072; 1089; 32; 1087;
       1086; 1087; 1091; 1083; 1103; 1088; 1085; 1086; 32; 1089; 1088; 1077;
       1076; 1080; 32; 82; 80; 71; 63]%N
  | WorthBuying =>
      [1057; 1090; 1086; 1080; 1090; 32; 1083; 1080; 32; 1089; 1077; 1081;
       1095; 1072; 1089; 32; 1087; 1086; 1082; 1091; 1087; 1072; 1090; 1100;
       32; 1084; 1086; 1080; 32; 1080; 1075; 1088; 1099; 32; 1080; 1079; 32;
       1084; 1086; 1085; 1080; 1090; 1086; 1088; 1080; 1085; 1075; 1072;
       63]%N
  end.

(** [setInput], as the textarea and the quick-action buttons call it. *)
Definition setInput (st : State) (text : jsstring) : State :=
  {| messages := messages st; input := text; sending := sending st |}.

(** The part of a keyboard event [handleKeyDown] reads. *)
Record KeyEvent : Type := {
  key : jsstring;
  shiftKey : bool;
}.

(** [handleKeyDown]: Enter without Shift prevents the default and calls
    [handleSend]; any other key is left to the textarea. *)
Definition sends (e : KeyEvent) : bool :=
  bool_decide (key e = js "Enter") && negb (shiftKey e).

(** The panel with what is outside it: the request that has not settled
    yet, the requests posted so far and the calls to
    [onEventsAppended]. *)
Record t : Type := {
  panel : State;
  in_flight : option ChatRequest;
  log : list ChatRequest;
  handed : list (list TrendEvent.t);
}.

Definition start : t :=
  {| panel := initial; in_flight := None; log := []; handed := [] |}.

Inductive Event : Type :=
| Typed (text : jsstring)
| QuickAction (q : Quick)
| SendClicked
| KeyDown (e : KeyEvent)
| Settles (res : Settled ChatResponse).

(** [handleSend] is called: its part before the [await] runs. *)
Definition send (m : t) : t :=
  match handleSend_begin (panel m) with
  | (st1, Some req) =>
      {| panel := st1;
         in_flight := Some req;
         log := log m ++ [req];
         handed := handed m |}
  | (_, None) => m
  end.

Definition retype (m : t) (text : jsstring) : t :=
  {| panel := setInput (panel m) text;
     in_flight := in_flight m;
     log := log m;
     handed := handed m |}.

(** One event.  The send button is [disabled] while [sending]; the
    answer of the backend resumes [handleSend] after its [await]. *)
Definition step (m : t) (ev : Event) : t :=
  match ev with
  | Typed text => retype m text
  | QuickAction q => retype m (quick_text q)
  | SendClicked => if sending (panel m) then m else send m
  | KeyDown e => if sends e then send m else m
  | Settles res =>
      match in_flight m with
      | Some _ =>
          let '(st2, calls) := handleSend_end (panel m) res in
          {| panel := st2;
             in_flight := None;
             log := log m;
             handed := handed m ++ calls |}
      | None => m
      end
  end.

Definition run (events : list Event) (m : t) : t := fold_left step events m.

(** A greeting followed by [k] exchanges: the roles of a history that
    alternates and ends with the assistant. *)
Definition exchanges (k : nat) : list Role :=
  assistant :: concat (replicate k [user; assistant]).

(** What every posted request should be: a history that is the greeting
    followed by whole exchanges, and a message that is not empty. *)
Definition sound_request (req : ChatRequest) : Prop :=
  (exists k, map role (history req) = exchanges k)
  /\ user_message req <> [].

(** The panel and its surroundings agree: the busy flag is up exactly
    while a request is in flight; the messages are the greeting, whole
    exchanges and, while a request is in flight, the message it carries;
    every request posted was sound and its history is still the
    beginning of the messages. *)
Definition coherent (m : t) : Prop :=
  (sending (panel m) = true <-> is_Some (in_flight m))
  /\ (exists k,
        map role (messages (panel m))
        = exchanges k ++ match in_flight m with Some _ => [user] | None => [] end)
  /\ Forall
       (fun req =>
          sound_request req /\ history req `prefix_of` messages (panel m))
       (log m).

End ChatMachine.

(* ===================================================================== *)
(** * More concrete inputs *)
(* ===================================================================== *)

Module Cases.

(** A storefront lookup that finds Portal 2. *)
Definition portal2 : WatchlistPanel.SteamGame :=
  {| WatchlistPanel.appid := value (Int 620);
     WatchlistPanel.name := value (js "Portal 2") |}.

Definition lookup_finds : WatchlistPanel.SearchApi :=
  fun _ => resolved (value [value portal2]).

(** The watchlist panel with a title and a price typed. *)
Definition priced (title price : string) : WatchlistPanel.State :=
  {| WatchlistPanel.title := js title;
     WatchlistPanel.price := js price;
     WatchlistPanel.loading := false |}.

(** Three games added one after the other, the lookup being down. *)
Definition shelf : list Game.t :=
  [WatchlistPanel.newGame (Scenario.typed "Doom") None;
   WatchlistPanel.newGame (Scenario.typed "Hades") None;
   WatchlistPanel.newGame (priced "Portal 2" "499") None].

(** An event as the backend reports it. *)
Definition event (id : string) : TrendEvent.t :=
  {| TrendEvent.id := js id;
     TrendEvent.game_id := value (js "portal");
     TrendEvent.type := js "price_drop";
     TrendEvent.title := js "Portal";
     TrendEvent.description := js "The price went down." |}.

(** A chat backend that answers with two events. *)
Definition chat_up : ChatPanel.ChatRequest -> Settled ChatPanel.ChatResponse :=
  fun _ =>
    resolved {| ChatPanel.reply := js "Portal is cheaper now.";
                ChatPanel.events := value [event "e1"; event "e2"] |}.

(** The chat panel with a question typed. *)
Definition asking : ChatPanel.State :=
  {| ChatPanel.messages := ChatPanel.messages ChatPanel.initial;
     ChatPanel.input := js " any news? ";
     ChatPanel.sending := false |}.

Definition enter : ChatMachine.KeyEvent :=
  {| ChatMachine.key := js "Enter"; ChatMachine.shiftKey := false |}.

End Cases.

(* ===================================================================== *)
(** * Theorems: strings *)
(* ===================================================================== *)

Module JSFacts.

Lemma is_space_hyphen : is_space hyphen = false.
Proof. reflexivity. Qed.

Lemma skip_spaces_head s c s' :
  skip_spaces s = c :: s' -> is_space c = false.
Proof.
  induction s as [|x s IH]; simpl; [discriminate|].
  destruct (is_space x) eqn:Hx; [exact IH|].
  intros [= <- <-]. exact Hx.
Qed.

Lemma skip_spaces_idem s : skip_spaces (skip_spaces s) = skip_spaces s.
Proof.
  induction s as [|x s IH]; simpl; [reflexivity|].
  destruct (is_space x) eqn:Hx; [exact IH|].
  simpl. now rewrite Hx.
Qed.

(** A trimmed string neither starts nor ends with whitespace. *)
Lemma trim_head s c s' : trim s = c :: s' -> is_space c = false.
Proof.
  unfold trim. intros Ht.
  assert (Hr : rev (c :: s') = skip_spaces (rev (skip_spaces s))).
  { rewrite <- Ht. now rewrite rev_involutive. }
  destruct (skip_spaces s) as [|x t] eqn:Hs.
  { simpl in Ht. discriminate. }
  pose proof (skip_spaces_head _ _ _ Hs) as Hx.
  (* the first code unit survives the second pass *)
  assert (Hlast : forall l y, is_space y = false ->
            exists l', skip_spaces (l ++ [y]) = l' ++ [y]).
  { clear. induction l as [|z l IH]; intros y Hy; simpl.
    - rewrite Hy. now exists [].
    - destruct (is_space z).
      + now apply IH.
      + now exists (z :: l). }
  simpl in Ht. destruct (Hlast (rev t) x Hx) as [l' Hl'].
  rewrite Hl', rev_app_distr in Ht. simpl in Ht.
  now injection Ht as <- _.
Qed.

Lemma runs_unfold c s :
  IdSpec.runs (c :: s) =
  match IdSpec.runs s with
  | (b, r) :: rs =>
      if Bool.eqb (is_space c) b then (b, c :: r) :: rs
      else (is_space c, [c]) :: (b, r) :: rs
  | [] => [(is_space c, [c])]
  end.
Proof. reflexivity. Qed.

(** The first run of a non-empty string starts with its first code unit
    and has its class. *)
Lemma runs_cons c s :
  exists r rs, IdSpec.runs (c :: s) = (is_space c, c :: r) :: rs.
Proof.
  rewrite runs_unfold. destruct (IdSpec.runs s) as [|[b r] rs].
  - now exists [], [].
  - destruct (Bool.eqb (is_space c) b) eqn:E.
    + apply Bool.eqb_prop in E. subst b. now exists r, rs.
    + now exists [], ((b, r) :: rs).
Qed.

(** The runs partition the string. *)
Lemma runs_concat s : concat (map snd (IdSpec.runs s)) = s.
Proof.
  induction s as [|c s IH]; [reflexivity|].
  rewrite runs_unfold. destruct (IdSpec.runs s) as [|[b r] rs].
  - simpl in *. now subst.
  - destruct (Bool.eqb (is_space c) b); simpl in *; now rewrite IH.
Qed.

(** Every run is non-empty and of one class. *)
Lemma runs_homogeneous s :
  Forall (fun '(b, r) => r <> [] /\ Forall (fun c => is_space c = b) r)
    (IdSpec.runs s).
Proof.
  induction s as [|c s IH]; [constructor|].
  rewrite runs_unfold. destruct (IdSpec.runs s) as [|[b r] rs].
  - repeat constructor. discriminate.
  - pose proof (Forall_inv IH) as [Hne Hall]. pose proof (Forall_inv_tail IH) as Hrest.
    destruct (Bool.eqb (is_space c) b) eqn:E.
    + apply Bool.eqb_prop in E. constructor; [|exact Hrest].
      split; [discriminate|]. now constructor.
    + constructor; [|exact IH]. split; [discriminate|]. now repeat constructor.
Qed.

(** The runs are maximal. *)
Lemma runs_alternating s : IdSpec.alternating (IdSpec.runs s).
Proof.
  induction s as [|c s IH]; [exact I|].
  rewrite runs_unfold. destruct (IdSpec.runs s) as [|[b r] rs] eqn:Hr.
  - exact I.
  - destruct (Bool.eqb (is_space c) b) eqn:E.
    + exact IH.
    + split; [|exact IH]. intros Heq. now rewrite Heq, Bool.eqb_reflx in E.
Qed.

Lemma hyphenate_space c s :
  is_space c = true ->
  IdSpec.hyphenate (IdSpec.runs (c :: s))
  = hyphen :: IdSpec.hyphenate (IdSpec.runs (skip_spaces s)).
Proof.
  revert c. induction s as [|c' s IH]; intros c Hc.
  - simpl. now rewrite Hc.
  - rewrite runs_unfold.
    destruct (runs_cons c' s) as (r & rs & Hr). rewrite Hr.
    destruct (is_space c') eqn:Hc'.
    + rewrite Hc. simpl skip_spaces. rewrite Hc'.
      rewrite <- (IH c' Hc'), Hr. reflexivity.
    + rewrite Hc. simpl skip_spaces. rewrite Hc', Hr. reflexivity.
Qed.

Lemma hyphenate_other c s :
  is_space c = false ->
  IdSpec.hyphenate (IdSpec.runs (c :: s)) = c :: IdSpec.hyphenate (IdSpec.runs s).
Proof.
  intros Hc. rewrite runs_unfold.
  destruct (IdSpec.runs s) as [|[b r] rs].
  - simpl. now rewrite Hc.
  - rewrite Hc. destruct b; reflexivity.
Qed.

(** The scan of [replace] writes what the runs say: one hyphen for every
    maximal run of whitespace, every other code unit as it is. *)
Lemma replace_spaces_runs s :
  replace_spaces s = IdSpec.hyphenate (IdSpec.runs s).
Proof.
  funelim (replace_spaces s).
  - reflexivity.
  - rewrite H. symmetry. now apply hyphenate_space.
  - rewrite H. symmetry. now apply hyphenate_other.
Qed.

(** No whitespace is left in the result. *)
Lemma replace_spaces_no_space s :
  Forall (fun c => is_space c = false) (replace_spaces s).
Proof.
  funelim (replace_spaces s).
  - constructor.
  - constructor; [apply is_space_hyphen | exact H].
  - constructor; [exact Heq | exact H].
Qed.

End JSFacts.

(* ===================================================================== *)
(** * Theorems: the watchlist panel *)
(* ===================================================================== *)

Module WatchlistFacts.
Import WatchlistPanel.

Section WithRuntime.
Context `{Runtime}.

(** A blank title: [handleAdd] returns at its guard. *)
Lemma handleAdd_blank st games api :
  is_empty (trim (title st)) = true ->
  handleAdd st games api = {| next := st; changed := None |}.
Proof. intros Hb. unfold handleAdd. now rewrite Hb. Qed.

(** Any other title: one game is appended and both fields are cleared. *)
Lemma handleAdd_appends st games api :
  is_empty (trim (title st)) = false ->
  handleAdd st games api =
  {| next := {| title := []; price := []; loading := false |};
     changed :=
       Some (games ++ [newGame st (searchSteamGame api (trim (title st)))]) |}.
Proof. intros Hb. unfold handleAdd. now rewrite Hb. Qed.

Lemma handleAdd_changed st games api gs :
  changed (handleAdd st games api) = Some gs ->
  is_empty (trim (title st)) = false
  /\ gs = games ++ [newGame st (searchSteamGame api (trim (title st)))].
Proof.
  unfold handleAdd. destruct (is_empty (trim (title st))); simpl.
  - discriminate.
  - intros [= <-]. now split.
Qed.

(** [searchSteamGame] answers [null] when the lookup fails: a rejected
    request, missing data or an empty array. *)
Lemma searchSteamGame_failure api t :
  api {| q := t; limit := 1 |} = rejected
  \/ api {| q := t; limit := 1 |} = resolved undefined
  \/ api {| q := t; limit := 1 |} = resolved null
  \/ api {| q := t; limit := 1 |} = resolved (value []) ->
  searchSteamGame api t = None.
Proof.
  unfold searchSteamGame. intros [-> | [-> | [-> | ->]]]; reflexivity.
Qed.

(** The list handed to [onChange] has no duplicate id exactly when the
    id of the new title is not taken yet. *)
Lemma handleAdd_unique st games api gs :
  changed (handleAdd st games api) = Some gs ->
  NoDup (map Game.id games) ->
  NoDup (map Game.id gs) <-> game_id (title st) ∉ map Game.id games.
Proof.
  intros Hc Hnd. apply handleAdd_changed in Hc as [_ ->].
  rewrite map_app. simpl map.
  split.
  - intros Hgs Hin. apply list.NoDup_app in Hgs as (_ & Hdisj & _).
    apply (Hdisj _ Hin). now left.
  - intros Hfresh. apply list.NoDup_app. split; [exact Hnd|]. split.
    + intros x Hx Hx'. apply list_elem_of_singleton in Hx'. now subst.
    + apply NoDup_singleton.
Qed.

(** C6: a title added through the watchlist gets the id
    [title.toLowerCase().replace(/\s+/g, "-")], that is the lowercased
    title with every maximal run of whitespace replaced by one hyphen;
    the id holds no whitespace and is a function of the title alone, so
    the same title yields the same id whatever the price field, the list
    and the lookup are. *)
Theorem added_game_id_normalized st games api :
  is_empty (trim (title st)) = false ->
  exists g,
    changed (handleAdd st games api) = Some (games ++ [g])
    /\ Game.id g = replace_spaces (toLowerCase (title st))
    /\ Game.id g = IdSpec.normalized (title st)
    /\ Forall (fun c => is_space c = false) (Game.id g)
    /\ forall st' games' api' gs',
         title st' = title st ->
         changed (handleAdd st' games' api') = Some gs' ->
         exists g', gs' = games' ++ [g'] /\ Game.id g' = Game.id g.
Proof.
  intros Hb. eexists. rewrite (handleAdd_appends _ _ _ Hb). simpl.
  split; [reflexivity|]. split; [reflexivity|]. split; [|split].
  - unfold game_id, IdSpec.normalized. apply JSFacts.replace_spaces_runs.
  - apply JSFacts.replace_spaces_no_space.
  - intros st' games' api' gs' Ht Hc.
    apply handleAdd_changed in Hc as [_ ->].
    eexists. split; [reflexivity|]. simpl. now rewrite Ht.
Qed.

(** C7: when the storefront lookup fails (the request is rejected) or
    finds nothing (an empty array), [searchSteamGame] answers [null]
    instead of throwing, and [handleAdd] still hands [onChange] the list
    with one more game, whose title is the trimmed title the user typed
    and whose [external_id] is [null]. *)
Theorem lookup_failure_adds_unenriched_game st games api :
  is_empty (trim (title st)) = false ->
  api {| q := trim (title st); limit := 1 |} = rejected
  \/ api {| q := trim (title st); limit := 1 |} = resolved (value []) ->
  searchSteamGame api (trim (title st)) = None
  /\ exists g,
       changed (handleAdd st games api) = Some (games ++ [g])
       /\ Game.title g = trim (title st)
       /\ Game.external_id g = null.
Proof.
  intros Hb Hfail.
  assert (Hs : searchSteamGame api (trim (title st)) = None).
  { apply searchSteamGame_failure. tauto. }
  split; [exact Hs|].
  eexists. rewrite (handleAdd_appends _ _ _ Hb), Hs. simpl.
  repeat split.
Qed.

(** C10: every game that [handleAdd] hands to [onChange] has source
    "steam", currency "RUB" and [is_tracked] true, whatever the lookup
    answered; when the price field is empty its [current_price] is
    [undefined], not a number. *)
Theorem added_game_defaults st games api gs :
  changed (handleAdd st games api) = Some gs ->
  exists g,
    gs = games ++ [g]
    /\ Game.source g = Game.steam
    /\ Game.currency g = value (js "RUB")
    /\ Game.is_tracked g = true
    /\ (price st = [] -> Game.current_price g = undefined)
    /\ (price st <> [] -> Game.current_price g = value (Number (price st))).
Proof.
  intros Hc. apply handleAdd_changed in Hc as [_ ->].
  eexists. split; [reflexivity|]. simpl. repeat split.
  - now intros ->.
  - destruct (price st); [congruence | reflexivity].
Qed.

End WithRuntime.

Lemma added_game_id_normalized_witness :
  is_empty (trim (title (Scenario.typed "The  Witcher 3"))) = false
  /\ exists g,
       changed (handleAdd (Scenario.typed "The  Witcher 3") [] Scenario.lookup_down)
       = Some ([] ++ [g])
       /\ Game.id g = replace_spaces (toLowerCase (title (Scenario.typed "The  Witcher 3")))
       /\ Game.id g = IdSpec.normalized (title (Scenario.typed "The  Witcher 3"))
       /\ Forall (fun c => is_space c = false) (Game.id g)
       /\ forall st' games' api' gs',
            title st' = title (Scenario.typed "The  Witcher 3") ->
            changed (handleAdd st' games' api') = Some gs' ->
            exists g', gs' = games' ++ [g'] /\ Game.id g' = Game.id g.
Proof.
  split; [reflexivity|].
  apply (added_game_id_normalized (Scenario.typed "The  Witcher 3") []
           Scenario.lookup_down).
  reflexivity.
Defined.

(** The id of the title typed with two blanks between its words. *)
Example witcher_id :
  game_id (js "The  Witcher 3") = js "the-witcher-3".
Proof. reflexivity. Qed.

(** The id is taken from the title as typed, not from the trimmed title:
    blanks around it become hyphens. *)
Example padded_title_id :
  game_id (js " Doom ") = js "-doom-".
Proof. reflexivity. Qed.

Lemma lookup_failure_adds_unenriched_game_witness :
  is_empty (trim (title (Scenario.typed " Hades "))) = false
  /\ (Scenario.lookup_empty {| q := trim (title (Scenario.typed " Hades ")); limit := 1 |}
      = rejected
      \/ Scenario.lookup_empty {| q := trim (title (Scenario.typed " Hades ")); limit := 1 |}
         = resolved (value []))
  /\ searchSteamGame Scenario.lookup_empty (trim (title (Scenario.typed " Hades "))) = None
  /\ exists g,
       changed (handleAdd (Scenario.typed " Hades ") [] Scenario.lookup_empty)
       = Some ([] ++ [g])
       /\ Game.title g = trim (title (Scenario.typed " Hades "))
       /\ Game.external_id g = null.
Proof.
  split; [reflexivity|]. split; [right; reflexivity|].
  apply (lookup_failure_adds_unenriched_game (Scenario.typed " Hades ") []
           Scenario.lookup_empty).
  - reflexivity.
  - right. reflexivity.
Defined.

Lemma added_game_defaults_witness :
  changed (handleAdd (Scenario.typed "Hades") [] Scenario.lookup_down)
  = Some [newGame (Scenario.typed "Hades") None]
  /\ exists g,
       [newGame (Scenario.typed "Hades") None] = [] ++ [g]
       /\ Game.source g = Game.steam
       /\ Game.currency g = value (js "RUB")
       /\ Game.is_tracked g = true
       /\ (price (Scenario.typed "Hades") = [] -> Game.current_price g = undefined)
       /\ (price (Scenario.typed "Hades") <> [] ->
           Game.current_price g = value (Number (price (Scenario.typed "Hades")))).
Proof.
  split; [reflexivity|].
  apply (added_game_defaults (Scenario.typed "Hades") [] Scenario.lookup_down).
  reflexivity.
Defined.

(** C8: adding the title "Doom" twice.  After the first add the list of
    [App] holds one game with id "doom"; the second add appends another
    game with the same id, and [updateWatchlist] keeps the list as it is
    handed over: two records share an id.  [handleRemove], which takes
    the id for the identity of a game, then removes both at once. *)
Theorem add_same_title_twice :
  let first :=
    App.add_game Scenario.empty_app (Scenario.typed "Doom")
      Scenario.lookup_down (resolved tt) in
  let second :=
    App.add_game (fst first) (Scenario.typed "Doom")
      Scenario.lookup_down (resolved tt) in
  map Game.id (App.games (fst first)) = [js "doom"]
  /\ map Game.id (App.games (fst second)) = [js "doom"; js "doom"]
  /\ ~ NoDup (map Game.id (App.games (fst second)))
  /\ changed (handleRemove (snd second) (App.games (fst second)) (js "doom"))
     = Some [].
Proof.
  cbv zeta. split; [reflexivity|]. split; [reflexivity|]. split; [|reflexivity].
  vm_compute. intros Hnd. apply NoDup_cons in Hnd as [Hnotin _].
  apply Hnotin. now left.
Qed.

End WatchlistFacts.

(* ===================================================================== *)
(** * Theorems: the chat panel *)
(* ===================================================================== *)

Module ChatFacts.
Import ChatPanel.

(** The history that is posted is the history before the new message. *)
Lemma handleSend_begin_history st st1 req :
  handleSend_begin st = (st1, Some req) ->
  history req = messages st
  /\ user_message req = trim (input st)
  /\ messages st1 = messages st ++ [{| role := user; content := trim (input st) |}].
Proof.
  unfold handleSend_begin.
  destruct (is_empty (trim (input st)) || sending st); [discriminate|].
  intros [= <- <-]. simpl. repeat split.
  rewrite map_app. simpl. rewrite removelast_last.
  induction (messages st) as [|[r c] l IH]; simpl; [reflexivity|].
  now rewrite IH.
Qed.

(** A failed request: the error reply is shown, the busy flag is
    cleared, and [onEventsAppended] is not called. *)
Lemma handleSend_end_rejected st :
  handleSend_end st rejected =
  ({| messages := messages st ++ [{| role := assistant; content := backend_error |}];
      input := input st;
      sending := false |}, []).
Proof. reflexivity. Qed.

Lemma handleSend_rejected_appends_nothing st :
  appended (handleSend st Scenario.chat_down) = [].
Proof.
  unfold handleSend.
  destruct (handleSend_begin st) as [st1 [req|]]; reflexivity.
Qed.

(** C9: when the input trims to the empty string, or a send is still in
    flight, [handleSend] returns at its guard: nothing is posted, no
    event is handed on, and the messages, the input field and the busy
    flag are as before. *)
Theorem handleSend_guard st backend :
  trim (input st) = [] \/ sending st = true ->
  handleSend st backend = {| final := st; posted := []; appended := [] |}.
Proof.
  intros Hg. unfold handleSend, handleSend_begin.
  assert (Hb : is_empty (trim (input st)) || sending st = true).
  { destruct Hg as [-> | ->]; [reflexivity | apply orb_true_r]. }
  now rewrite Hb.
Qed.

Lemma handleSend_guard_witness :
  (trim (input Scenario.blank_chat) = [] \/ sending Scenario.blank_chat = true)
  /\ handleSend Scenario.blank_chat Scenario.chat_down
     = {| final := Scenario.blank_chat; posted := []; appended := [] |}.
Proof.
  split; [left; reflexivity|].
  apply (handleSend_guard Scenario.blank_chat Scenario.chat_down).
  left. reflexivity.
Defined.

(** Outside the guard one request is posted. *)
Lemma handleSend_posts st backend :
  trim (input st) <> [] -> sending st = false ->
  exists req, posted (handleSend st backend) = [req]
              /\ history req = messages st
              /\ user_message req = trim (input st).
Proof.
  intros Ht Hs. unfold handleSend.
  destruct (handleSend_begin st) as [st1 [req|]] eqn:Hb.
  - apply handleSend_begin_history in Hb as (Hh & Hu & _).
    destruct (handleSend_end st1 (backend req)) as [st2 calls].
    now exists req.
  - unfold handleSend_begin in Hb. rewrite Hs, orb_false_r in Hb.
    destruct (trim (input st)); [congruence | discriminate].
Qed.

End ChatFacts.

(* ===================================================================== *)
(** * Theorems: the Event Ledger *)
(* ===================================================================== *)

Module LedgerFacts.
Import Core Core.EventLedger.

Lemma most_recent_all {A} n (l : list A) :
  length l <= n -> most_recent n l = l.
Proof.
  intros Hn. unfold most_recent.
  replace (length l - n) with 0 by lia. reflexivity.
Qed.

Lemma most_recent_length {A} n (l : list A) :
  length (most_recent n l) = Nat.min n (length l).
Proof. unfold most_recent. rewrite length_drop. lia. Qed.

(** What is retained is a suffix: eviction is oldest first. *)
Lemma most_recent_suffix {A} n (l : list A) :
  exists evicted, l = evicted ++ most_recent n l.
Proof.
  exists (take (length l - n) l). unfold most_recent.
  now rewrite take_drop.
Qed.

Lemma most_recent_app {A} n (l1 l2 : list A) :
  n <= length l2 -> most_recent n (l1 ++ l2) = most_recent n l2.
Proof.
  intros Hn. unfold most_recent. rewrite length_app.
  rewrite drop_app_ge by lia. f_equal. lia.
Qed.

(** Evicting early changes nothing for what is retained later. *)
Lemma most_recent_inner {A} n (l k : list A) :
  most_recent n (most_recent n l ++ k) = most_recent n (l ++ k).
Proof.
  destruct (decide (length l <= n)) as [Hle|Hgt].
  - now rewrite (most_recent_all n l) by exact Hle.
  - destruct (most_recent_suffix n l) as [evicted Hl].
    rewrite Hl at 2. rewrite <- app_assoc.
    symmetry. apply most_recent_app.
    rewrite length_app, most_recent_length. lia.
Qed.

Lemma most_recent_snoc {A} n (l : list A) x :
  most_recent n (most_recent n l ++ [x]) = most_recent n (l ++ [x]).
Proof. apply most_recent_inner. Qed.

(** With room for one event at least, the event appended last is
    retained, last. *)
Lemma most_recent_last {A} n (l : list A) x :
  0 < n -> exists l', most_recent n (l ++ [x]) = l' ++ [x].
Proof.
  intros Hn. unfold most_recent. rewrite length_app. simpl length.
  exists (drop (length l + 1 - n) l).
  rewrite drop_app_le by lia. reflexivity.
Qed.


Lemma append_entries cfg now d L :
  entries (fst (append cfg now d L))
  = most_recent (capacity cfg)
      (entries L ++ [{| at_time := now; event := snd (append cfg now d L) |}]).
Proof. reflexivity. Qed.

Lemma append_next_id cfg now d L :
  next_id (fst (append cfg now d L)) = N.succ (next_id L).
Proof. reflexivity. Qed.

(** The ledger never holds more than its capacity after an append. *)
Lemma append_bounded cfg now d L :
  length (entries (fst (append cfg now d L))) <= capacity cfg.
Proof. rewrite append_entries, most_recent_length. lia. Qed.

(** Without a cursor and with a limit the ledger does not reach, [list]
    returns the retained events. *)
Lemma listEvents_all limit L :
  length (entries L) <= limit ->
  listEvents limit None L = map event (entries L).
Proof.
  intros Hl. unfold listEvents. apply most_recent_all.
  now rewrite length_map.
Qed.

Lemma most_recent_map {A B} (f : A -> B) n (l : list A) :
  map f (most_recent n l) = most_recent n (map f l).
Proof. unfold most_recent. now rewrite length_map, skipn_map. Qed.

Lemma append_all_length cfg ds L :
  length (snd (append_all cfg ds L)) = length ds.
Proof.
  revert L. induction ds as [|[now d] rest IH]; intros L; [reflexivity|].
  cbn [append_all]. destruct (append cfg now d L) as [L1 e].
  specialize (IH L1). destruct (append_all cfg rest L1) as [L2 es].
  simpl in *. now rewrite IH.
Qed.

(** After any sequence of appends a ledger that was within its capacity
    retains the most recent events among those it held and those
    appended since. *)
Lemma append_all_retained cfg ds L :
  length (entries L) <= capacity cfg ->
  map event (entries (fst (append_all cfg ds L)))
  = most_recent (capacity cfg)
      (map event (entries L) ++ snd (append_all cfg ds L)).
Proof.
  revert L. induction ds as [|[now d] rest IH]; intros L Hb.
  - cbn [append_all fst snd]. rewrite app_nil_r.
    symmetry. apply most_recent_all. now rewrite length_map.
  - cbn [append_all].
    pose proof (append_bounded cfg now d L) as Hb1.
    pose proof (append_entries cfg now d L) as He.
    destruct (append cfg now d L) as [L1 e]. cbn [fst snd] in Hb1, He.
    specialize (IH L1 Hb1). destruct (append_all cfg rest L1) as [L2 es].
    cbn [fst snd] in *. rewrite IH, He, most_recent_map, map_app.
    cbn [map event]. rewrite most_recent_inner, <- app_assoc. reflexivity.
Qed.

(** Once at least as many events were appended as the capacity holds,
    [list] with a limit that reaches the capacity returns exactly the
    last [capacity] of the appended events, in the order of the
    appends. *)
Lemma append_all_listEvents cfg ds L limit :
  length (entries L) <= capacity cfg ->
  capacity cfg <= length ds ->
  capacity cfg <= limit ->
  listEvents limit None (fst (append_all cfg ds L))
  = most_recent (capacity cfg) (snd (append_all cfg ds L)).
Proof.
  intros Hb Hds Hl. unfold listEvents.
  rewrite (append_all_retained cfg ds L Hb).
  rewrite most_recent_app by (rewrite append_all_length; lia).
  apply most_recent_all. rewrite most_recent_length. lia.
Qed.

(** C4: a ledger of capacity 3, whatever it retains, to which five
    events are appended one after the other: [list(limit = 10)] returns
    exactly the third, fourth and fifth of them, in the order of their
    appends (most recent last); the first two, and everything older, have
    been evicted.  The ledger numbers the five events in sequence. *)
Theorem capacity_three_keeps_the_last_three cfg L t1 d1 t2 d2 t3 d3 t4 d4 t5 d5 :
  capacity cfg = 3 ->
  let '(L1, e1) := append cfg t1 d1 L in
  let '(L2, e2) := append cfg t2 d2 L1 in
  let '(L3, e3) := append cfg t3 d3 L2 in
  let '(L4, e4) := append cfg t4 d4 L3 in
  let '(L5, e5) := append cfg t5 d5 L4 in
  listEvents 10 None L5 = [e3; e4; e5]
  /\ map TrendEvent.id [e1; e2; e3; e4; e5]
     = map (fun k => (next_id L + k)%N) [0; 1; 2; 3; 4]%N
  /\ map (fun e => (TrendEvent.game_id e, TrendEvent.type e))
       [e1; e2; e3; e4; e5]
     = map (fun d => (game_id d, type d)) [d1; d2; d3; d4; d5].
Proof.
  intros Hcap. unfold append. rewrite Hcap. simpl next_id. simpl entries.
  split; [|split].
  - rewrite listEvents_all.
    2:{ simpl entries. rewrite most_recent_length. lia. }
    simpl entries.
    repeat (rewrite most_recent_inner, <- app_assoc).
    rewrite most_recent_app by (simpl; lia).
    reflexivity.
  - simpl. repeat f_equal; lia.
  - reflexivity.
Qed.

Lemma capacity_three_keeps_the_last_three_witness :
  let cfg := Scenario.config in
  let d := ChangeDetector.draft Scenario.wording price_drop
             (BeliefStore.fresh (js "portal")) in
  capacity cfg = 3
  /\ let '(L1, e1) := append cfg 1 d empty in
     let '(L2, e2) := append cfg 2 d L1 in
     let '(L3, e3) := append cfg 3 d L2 in
     let '(L4, e4) := append cfg 4 d L3 in
     let '(L5, e5) := append cfg 5 d L4 in
     listEvents 10 None L5 = [e3; e4; e5]
     /\ map TrendEvent.id [e1; e2; e3; e4; e5]
        = map (fun k => (next_id empty + k)%N) [0; 1; 2; 3; 4]%N
     /\ map (fun e => (TrendEvent.game_id e, TrendEvent.type e))
          [e1; e2; e3; e4; e5]
        = map (fun d => (game_id d, type d)) [d; d; d; d; d].
Proof.
  cbv zeta. split; [reflexivity|].
  apply (capacity_three_keeps_the_last_three Scenario.config empty
           1 _ 2 _ 3 _ 4 _ 5 _).
  reflexivity.
Defined.

End LedgerFacts.

(* ===================================================================== *)
(** * Theorems: the Belief Store *)
(* ===================================================================== *)

Module StoreFacts.
Import Core Core.BeliefStore.


Lemma get_None id store : get id store = None <-> id ∉ map Game.id store.
Proof.
  unfold get. induction store as [|h rest IH]; simpl.
  - split; [intros _ Hin; inversion Hin | reflexivity].
  - case_bool_decide as Hh.
    + split; [discriminate|]. intros Hn. exfalso. apply Hn. subst. now left.
    + rewrite IH. split.
      * intros Hn Hin. apply elem_of_cons in Hin as [->|Hin]; [now apply Hh | now apply Hn].
      * intros Hn Hin. apply Hn. now right.
Qed.


(** A put replaces in place or appends: the ids keep their order. *)
Lemma put_ids g store :
  map Game.id (put g store)
  = if bool_decide (Game.id g ∈ map Game.id store) then map Game.id store
    else map Game.id store ++ [Game.id g].
Proof.
  induction store as [|h rest IH]; [reflexivity|]. cbn [put map].
  destruct (decide (Game.id h = Game.id g)) as [Heq|Hne].
  - rewrite (bool_decide_eq_true_2 _ Heq). cbn [map].
    rewrite (bool_decide_eq_true_2 (Game.id g ∈ _)).
    + now rewrite Heq.
    + rewrite Heq. now left.
  - rewrite (bool_decide_eq_false_2 _ Hne). cbn [map]. rewrite IH.
    destruct (decide (Game.id g ∈ map Game.id rest)) as [Hin|Hnin].
    + rewrite (bool_decide_eq_true_2 _ Hin).
      rewrite bool_decide_eq_true_2; [reflexivity | now right].
    + rewrite (bool_decide_eq_false_2 _ Hnin).
      rewrite bool_decide_eq_false_2; [reflexivity|].
      intros Hin'. apply elem_of_cons in Hin' as [Heq|Hin'].
      * apply Hne. now symmetry.
      * now apply Hnin.
Qed.

(** The ids of the store stay pairwise distinct under a put. *)
Lemma put_NoDup g store :
  NoDup (map Game.id store) -> NoDup (map Game.id (put g store)).
Proof.
  intros Hnd. rewrite put_ids. case_bool_decide as Hin; [exact Hnd|].
  apply list.NoDup_app. split; [exact Hnd|]. split.
  - intros x Hx Hx'. apply list_elem_of_singleton in Hx'. now subst.
  - apply NoDup_singleton.
Qed.



Lemma upsert_store cfg u store :
  fst (upsert cfg u store) = put (snd (upsert cfg u store)) store.
Proof. reflexivity. Qed.




Lemma upsert_NoDup cfg u store :
  NoDup (map Game.id store) -> NoDup (map Game.id (fst (upsert cfg u store))).
Proof. rewrite upsert_store. apply put_NoDup. Qed.

End StoreFacts.

(* ===================================================================== *)
(** * Theorems: the Change Detector *)
(* ===================================================================== *)

Module DetectorFacts.
Import Core Core.BeliefStore Core.EventLedger Core.ChangeDetector.

(** The head of a filtered list is the first element that passes. *)
Lemma head_filter_first {A} (f : A -> bool) (l : list A) x :
  head (List.filter f l) = Some x ->
  exists before after,
    l = before ++ x :: after
    /\ f x = true
    /\ Forall (fun y => f y = false) before.
Proof.
  induction l as [|y l IH]; simpl; [discriminate|].
  destruct (f y) eqn:Hy; simpl.
  - intros [= ->]. now exists [], l.
  - intros Hh. destruct (IH Hh) as (before & after & -> & Hx & Hall).
    exists (y :: before), after. repeat split; [exact Hx|].
    now constructor.
Qed.

(** What [detect] answers is the first rule of the priority order that
    fires. *)
Lemma detect_highest cfg prior u merged ty :
  detect cfg prior u merged = Some ty ->
  exists before after,
    priority = before ++ ty :: after
    /\ fires cfg prior u merged ty = true
    /\ Forall (fun t => fires cfg prior u merged t = false) before.
Proof. apply head_filter_first. Qed.

Lemma detect_fires cfg prior u merged ty :
  detect cfg prior u merged = Some ty -> fires cfg prior u merged ty = true.
Proof.
  intros Hd.
  now destruct (detect_highest _ _ _ _ _ Hd) as (_ & _ & _ & Hf & _).
Qed.

(** [detect] answers nothing only when no rule fires. *)
Lemma detect_None cfg prior u merged :
  detect cfg prior u merged = None ->
  forall ty, fires cfg prior u merged ty = false.
Proof.
  unfold detect, fired, priority. cbn [List.filter]. intros Hd ty.
  destruct (fires cfg prior u merged discount_started) eqn:H1; [discriminate|].
  destruct (fires cfg prior u merged price_drop) eqn:H2; [discriminate|].
  destruct (fires cfg prior u merged price_increase) eqn:H3; [discriminate|].
  destruct (fires cfg prior u merged discount_ended) eqn:H4; [discriminate|].
  destruct (fires cfg prior u merged back_in_stock) eqn:H5; [discriminate|].
  destruct ty; try assumption. reflexivity.
Qed.





(** [apply], with its reads and its one write spelled out. *)
Lemma apply_unfold cfg w now u s :
  apply cfg w now u s =
  let prior := get (PartialGame.id u) (store s) in
  let merged := snd (upsert cfg u (store s)) in
  let store' := fst (upsert cfg u (store s)) in
  match detect cfg prior u merged with
  | Some ty =>
      if suppressed cfg now (PartialGame.id u) ty (appended s) then
        ((merged, None),
         {| store := store'; ledger := ledger s; appended := appended s |})
      else
        let ev := snd (append cfg now (draft w ty merged) (ledger s)) in
        ((merged, Some ev),
         {| store := store';
            ledger := fst (append cfg now (draft w ty merged) (ledger s));
            appended := appended s ++ [stamp now ev] |})
  | None =>
      ((merged, None),
       {| store := store'; ledger := ledger s; appended := appended s |})
  end.
Proof.
  unfold apply, mbind, Op_bind, read, write, mret, Op_ret. simpl.
  destruct (detect cfg _ u _); [|reflexivity].
  now destruct (suppressed cfg now _ _ _).
Qed.

(** The store takes the merged Game whatever the detector decides. *)
Lemma apply_store cfg w now u s :
  store (snd (apply cfg w now u s)) = fst (upsert cfg u (store s)).
Proof.
  rewrite apply_unfold. cbv zeta.
  destruct (detect cfg _ u _); [|reflexivity].
  now destruct (suppressed cfg now _ _ _).
Qed.

(** The ids of the Belief Store stay pairwise distinct under [apply]. *)
Lemma apply_NoDup cfg w now u s :
  NoDup (map Game.id (store s)) ->
  NoDup (map Game.id (store (snd (apply cfg w now u s)))).
Proof. rewrite apply_store. apply StoreFacts.upsert_NoDup. Qed.




(** Whatever [apply] does, every append it makes is stamped: the stamps
    grow by the event it returns, if any. *)
Lemma apply_appended cfg w now u s :
  appended (snd (apply cfg w now u s))
  = appended s ++ (stamp now <$> option_list (snd (fst (apply cfg w now u s)))).
Proof.
  rewrite apply_unfold. cbv zeta.
  destruct (detect cfg _ u _) as [ty|]; [|now rewrite app_nil_r].
  destruct (suppressed cfg now _ ty _); [now rewrite app_nil_r|reflexivity].
Qed.







End DetectorFacts.

(* ===================================================================== *)
(** * Theorems: tie-break, deduplication and the price threshold *)
(* ===================================================================== *)

Module ApplyFacts.
Import Core Core.BeliefStore Core.EventLedger Core.ChangeDetector.
Import DetectorFacts.

(** A game introduced with a price of 500 and a discount of 20 percent
    emits a discount_started, as section 8 of the specification expects
    of the rules. *)
Example introduced_with_discount :
  Scenario.emitted [(0%Z, Scenario.portal (Some 500%N) (Some 20%N))]
  = [Some discount_started].
Proof. vm_compute. reflexivity. Qed.

(** What the updates of [Scenario.busy_minute] emit, in order. *)
Example busy_minute_events :
  Scenario.emitted Scenario.busy_minute
  = [Some discount_started; Some discount_ended; None;
     Some price_drop; Some price_increase].
Proof. vm_compute. reflexivity. Qed.

(** An update that carries a price and no discount leaves the stored
    discount alone and does not end it. *)
Example price_only_update_keeps_the_discount :
  let s := Scenario.replay Scenario.discounted in
  let out :=
    apply Scenario.config Scenario.wording 1000
      (Scenario.portal (Some 996%N) None) s in
  Game.discount_percent (fst (fst out)) = Some 20%N
  /\ snd (fst out) = None.
Proof. vm_compute. split; reflexivity. Qed.

(** The cooldown does not depend on what the ledger retains.  With a
    ledger that retains nothing, a second price drop one second after
    the first is suppressed. *)
Example second_drop_is_suppressed_without_retention :
  Scenario.emitted_with Scenario.forgetful Scenario.two_drops
  = [Some discount_started; Some price_drop; None]
  /\ entries (ledger (Scenario.replay_with Scenario.forgetful Scenario.two_drops))
     = [].
Proof. vm_compute. split; reflexivity. Qed.

(** Nor does a burst of events about other games that evicts the price
    drop from the ledger bring the cooldown to an end. *)
Example second_drop_is_suppressed_after_a_burst :
  Scenario.emitted Scenario.burst
  = [None; Some price_drop; Some discount_started; Some discount_started;
     Some discount_started; None]
  /\ (TrendEvent.type ∘ event <$> entries (ledger (Scenario.replay Scenario.burst)))
     = [discount_started; discount_started; discount_started].
Proof. vm_compute. split; reflexivity. Qed.




(** In that run the price drop wins over the end of the discount. *)
Example price_drop_wins_over_discount_end :
  Scenario.emitted (Scenario.discounted ++ [(10%Z, Scenario.portal (Some 900%N) (Some 0%N))])
  = [Some discount_started; Some price_drop].
Proof. vm_compute. reflexivity. Qed.



(** The same update twice, on a discounted game and on a game without a
    discount: one event. *)
Example same_update_twice_one_event :
  Scenario.emitted
    (Scenario.discounted
     ++ [(1000%Z, Scenario.portal (Some 900%N) None);
         (1001%Z, Scenario.portal (Some 900%N) None)])
  = [Some discount_started; Some price_drop; None]
  /\ Scenario.emitted
       (Scenario.full_price
        ++ [(1000%Z, Scenario.portal (Some 900%N) None);
            (1001%Z, Scenario.portal (Some 900%N) None)])
     = [None; Some price_drop; None].
Proof. vm_compute. split; reflexivity. Qed.

(** The end of a discount reported twice: one event. *)
Example discount_end_twice_one_event :
  Scenario.emitted
    (Scenario.discounted
     ++ [(1000%Z, Scenario.portal None (Some 0%N));
         (1001%Z, Scenario.portal None (Some 0%N))])
  = [Some discount_started; Some discount_ended; None].
Proof. vm_compute. reflexivity. Qed.




(** The two prices of the claim on a game stored at 1000, with a
    discount and without one: 980 emits a price_drop, 996 emits
    nothing. *)
Example drop_to_980 :
  Scenario.emitted (Scenario.full_price ++ [(1000%Z, Scenario.portal (Some 980%N) None)])
  = [None; Some price_drop]
  /\ Scenario.emitted (Scenario.discounted ++ [(1000%Z, Scenario.portal (Some 980%N) None)])
     = [Some discount_started; Some price_drop].
Proof. vm_compute. split; reflexivity. Qed.

Example drop_to_996 :
  Scenario.emitted (Scenario.full_price ++ [(1000%Z, Scenario.portal (Some 996%N) None)])
  = [None; None]
  /\ Scenario.emitted (Scenario.discounted ++ [(1000%Z, Scenario.portal (Some 996%N) None)])
     = [Some discount_started; None].
Proof. vm_compute. split; reflexivity. Qed.

End ApplyFacts.

(* ===================================================================== *)
(** * Theorems: the Context Assembler and a failed chat turn *)
(* ===================================================================== *)

Module ContextFacts.
Import Core Core.ContextAssembler.

(** [buildContext] only reads. *)
Lemma buildContext_reads cfg history userMessage s :
  snd (buildContext cfg history userMessage s) = s.
Proof. reflexivity. Qed.

(** It puts at most the configured number of events into the payload,
    the most recent ones. *)
Lemma buildContext_recent cfg history userMessage s :
  recent_events (fst (buildContext cfg history userMessage s))
  = EventLedger.most_recent (context_events cfg)
      (map EventLedger.event (EventLedger.entries (ledger s))).
Proof. reflexivity. Qed.

(** A chat turn whose language-model call failed. *)
Lemma chat_failed cfg w llm extractFacts now history userMessage s :
  complete llm (fst (buildContext cfg history userMessage s)) = None ->
  chat cfg w llm extractFacts now history userMessage s
  = ((failure_reply w, []), s).
Proof.
  intros Hf. unfold chat, mbind, Op_bind.
  change (buildContext cfg history userMessage s)
    with (fst (buildContext cfg history userMessage s), s).
  cbn [fst]. now rewrite Hf.
Qed.

(** A chat turn that goes through does change the state: the model is
    not one in which nothing ever happens. *)
Example chat_answered_changes_state :
  let s := Scenario.replay Scenario.full_price in
  let out :=
    chat Scenario.config Scenario.wording Scenario.model_up Scenario.one_fact
      1000 [] (js "any news?") s in
  map TrendEvent.type (snd (fst out)) = [price_drop]
  /\ snd out <> s.
Proof. vm_compute. split; [reflexivity | discriminate]. Qed.

(** C5: [buildContext] leaves the state of the core (Belief Store and
    Event Ledger) as it found it; a chat turn whose language-model call
    fails, the retry included, answers the generic failure reply with no
    event and leaves the state equal to the state before the call.  On
    the side of the chat panel, the [catch] branch of [handleSend] shows
    the error reply, clears the busy flag and hands no event to [App],
    whose games and events stay as they were. *)
Theorem failed_chat_turn_changes_nothing
    cfg w llm extractFacts now history userMessage s :
  complete llm (fst (buildContext cfg history userMessage s)) = None ->
  snd (buildContext cfg history userMessage s) = s
  /\ chat cfg w llm extractFacts now history userMessage s
     = ((failure_reply w, []), s)
  /\ (forall panel,
        snd (ChatPanel.handleSend_end panel rejected) = []
        /\ ChatPanel.sending (fst (ChatPanel.handleSend_end panel rejected)) = false)
  /\ (forall (R : Runtime) (app : App.State) panel,
        App.chat_turn app (ChatPanel.handleSend panel (fun _ => rejected)) = app).
Proof.
  intros Hf. split; [apply buildContext_reads|].
  split; [now apply chat_failed|]. split.
  - intros panel. now split.
  - intros R app panel. unfold App.chat_turn.
    change (fun _ : ChatPanel.ChatRequest => @rejected ChatPanel.ChatResponse)
      with Scenario.chat_down.
    now rewrite ChatFacts.handleSend_rejected_appends_nothing.
Qed.

Lemma failed_chat_turn_changes_nothing_witness :
  let cfg := Scenario.config in
  let w := Scenario.wording in
  let s := Scenario.replay Scenario.busy_minute in
  let history := [{| role := user; content := js "hello" |}] in
  let msg := js "any news?" in
  complete Scenario.model_down (fst (buildContext cfg history msg s)) = None
  /\ snd (buildContext cfg history msg s) = s
  /\ chat cfg w Scenario.model_down Scenario.one_fact 1000 history msg s
     = ((failure_reply w, []), s)
  /\ (forall panel,
        snd (ChatPanel.handleSend_end panel rejected) = []
        /\ ChatPanel.sending (fst (ChatPanel.handleSend_end panel rejected)) = false)
  /\ (forall (R : Runtime) (app : App.State) panel,
        App.chat_turn app (ChatPanel.handleSend panel (fun _ => rejected)) = app).
Proof.
  cbv zeta. split; [reflexivity|].
  apply (failed_chat_turn_changes_nothing
           Scenario.config Scenario.wording Scenario.model_down Scenario.one_fact
           1000 [{| role := user; content := js "hello" |}] (js "any news?")
           (Scenario.replay Scenario.busy_minute)).
  reflexivity.
Defined.

End ContextFacts.

(* ===================================================================== *)
(** * Theorems: the Watchlist Coordinator *)
(* ===================================================================== *)

Module CoordinatorFacts.
Import Core Core.BeliefStore Core.WatchlistCoordinator.

Lemma apply_all_NoDup cfg w now games s :
  NoDup (map Game.id (store s)) ->
  NoDup (map Game.id (store (snd (apply_all cfg w now games s)))).
Proof.
  revert s. induction games as [|g rest IH]; intros s Hnd; [exact Hnd|].
  cbn [apply_all]. unfold mbind, Op_bind.
  pose proof (DetectorFacts.apply_NoDup cfg w now (as_update g) s Hnd) as H1.
  destruct (ChangeDetector.apply cfg w now (as_update g) s) as [r s1].
  now apply IH.
Qed.

(** Untracking the games the input does not name keeps every id where
    it is. *)
Lemma clear_absent_ids games s :
  map Game.id (clear_absent games s) = map Game.id s.
Proof.
  unfold clear_absent. rewrite map_map. apply map_ext. intros g.
  now case_bool_decide.
Qed.

(** [replaceAll], with its reads and writes spelled out. *)
Lemma replaceAll_unfold cfg w now games s :
  replaceAll cfg w now games s =
  let s1 := snd (apply_all cfg w now games s) in
  let s2 := {| store := clear_absent games (store s1);
               ledger := ledger s1;
               appended := appended s1 |} in
  (store s2, s2).
Proof.
  unfold replaceAll, mbind, Op_bind, read, write, mret, Op_ret.
  now destruct (apply_all cfg w now games s) as [[] s1].
Qed.

(** On the side of the core the ids stay pairwise distinct under
    [replaceAll], whatever list is submitted, a list with repeated ids
    included: every record of the input goes through the merge by id. *)
Lemma replaceAll_NoDup cfg w now games s :
  NoDup (map Game.id (store s)) ->
  NoDup (map Game.id (store (snd (replaceAll cfg w now games s))))
  /\ fst (replaceAll cfg w now games s)
     = store (snd (replaceAll cfg w now games s)).
Proof.
  intros Hnd. rewrite replaceAll_unfold. cbv zeta. cbn [fst snd store].
  split; [|reflexivity]. rewrite clear_absent_ids.
  now apply apply_all_NoDup.
Qed.

(** Clearing tracked flags does not touch the ledger: the events that
    name a game outlive its removal from the watchlist. *)
Lemma replaceAll_ledger cfg w now games s :
  ledger (snd (replaceAll cfg w now games s))
  = ledger (snd (apply_all cfg w now games s)).
Proof. rewrite replaceAll_unfold. reflexivity. Qed.

Example replaceAll_empty_keeps_events :
  let s := Scenario.replay Scenario.discounted in
  let out := replaceAll Scenario.config Scenario.wording 60 [] s in
  map Game.is_tracked (fst out) = [false]
  /\ ledger (snd out) = ledger s.
Proof. vm_compute. split; reflexivity. Qed.

End CoordinatorFacts.

(* ===================================================================== *)
(** * More theorems: blank input and the shape of ids *)
(* ===================================================================== *)

Module BlankFacts.

Lemma skip_spaces_nil s :
  skip_spaces s = [] <-> Forall (fun c => is_space c = true) s.
Proof.
  induction s as [|c s IH]; simpl.
  - split; [constructor | reflexivity].
  - destruct (is_space c) eqn:Hc.
    + rewrite IH. split.
      * intros Hs. now constructor.
      * intros Hs. now apply Forall_inv_tail in Hs.
    + split; [discriminate|]. intros Hs. apply Forall_inv in Hs. congruence.
Qed.

Lemma skip_spaces_all s :
  Forall (fun c => is_space c = true) (skip_spaces s) ->
  Forall (fun c => is_space c = true) s.
Proof.
  intros Hs. apply skip_spaces_nil.
  destruct (skip_spaces s) as [|c s'] eqn:E; [reflexivity|].
  apply Forall_inv in Hs.
  apply JSFacts.skip_spaces_head in E. congruence.
Qed.

(** A string trims to the empty string exactly when it holds nothing
    but whitespace. *)
Lemma trim_nil s :
  trim s = [] <-> Forall (fun c => is_space c = true) s.
Proof.
  unfold trim. split.
  - intros Ht. apply (f_equal (@rev N)) in Ht.
    rewrite rev_involutive in Ht. simpl in Ht.
    apply skip_spaces_nil in Ht. apply skip_spaces_all.
    apply Forall_forall. intros c Hc. apply list_elem_of_In, in_rev in Hc.
    rewrite Forall_forall in Ht. apply Ht. now apply list_elem_of_In.
  - intros Hs. apply skip_spaces_nil in Hs. now rewrite Hs.
Qed.

Lemma skip_spaces_app_all ws r :
  Forall (fun c => is_space c = true) ws ->
  skip_spaces (ws ++ r) = skip_spaces r.
Proof.
  induction ws as [|c ws IH]; intros Hs; [reflexivity|].
  simpl. rewrite (Forall_inv Hs). apply IH. now apply Forall_inv_tail in Hs.
Qed.

Lemma skip_spaces_app_other a r :
  ~ Forall (fun c => is_space c = true) a ->
  skip_spaces (a ++ r) = skip_spaces a ++ r.
Proof.
  induction a as [|c a IH]; intros Hn.
  - exfalso. apply Hn. constructor.
  - simpl. destruct (is_space c) eqn:Hc; [|reflexivity].
    apply IH. intros Ha. apply Hn. now constructor.
Qed.

Lemma replace_spaces_space c s :
  is_space c = true ->
  replace_spaces (c :: s) = hyphen :: replace_spaces (skip_spaces s).
Proof.
  intros Hc. rewrite !JSFacts.replace_spaces_runs.
  now apply JSFacts.hyphenate_space.
Qed.

Lemma replace_spaces_other c s :
  is_space c = false ->
  replace_spaces (c :: s) = c :: replace_spaces s.
Proof.
  intros Hc. rewrite !JSFacts.replace_spaces_runs.
  now apply JSFacts.hyphenate_other.
Qed.

(** A run of whitespace becomes one hyphen whatever its length and
    whatever it is made of. *)
Lemma replace_spaces_run a ws1 ws2 b :
  ws1 <> [] -> ws2 <> [] ->
  Forall (fun c => is_space c = true) ws1 ->
  Forall (fun c => is_space c = true) ws2 ->
  replace_spaces (a ++ ws1 ++ b) = replace_spaces (a ++ ws2 ++ b).
Proof.
  intros Hn1 Hn2 Hs1 Hs2.
  assert (Hhead : forall ws, ws <> [] ->
            Forall (fun c => is_space c = true) ws ->
            replace_spaces (ws ++ b) = hyphen :: replace_spaces (skip_spaces b)).
  { intros [|c ws] Hne Hs; [congruence|]. simpl.
    rewrite replace_spaces_space by apply (Forall_inv Hs).
    rewrite skip_spaces_app_all; [reflexivity|]. now apply Forall_inv_tail in Hs. }
  remember (length a) as n eqn:Hn. revert a Hn.
  induction n as [n IH] using lt_wf_ind. intros a Hn.
  destruct a as [|c a].
  - simpl. now rewrite !Hhead.
  - simpl. destruct (is_space c) eqn:Hc.
    + rewrite !replace_spaces_space by exact Hc. f_equal.
      destruct (decide (Forall (fun c => is_space c = true) a)) as [Ha|Ha].
      * rewrite !skip_spaces_app_all by exact Ha.
        rewrite !skip_spaces_app_all by assumption. reflexivity.
      * rewrite !skip_spaces_app_other by exact Ha.
        apply (IH (length (skip_spaces a))); [|reflexivity].
        pose proof (skip_spaces_length a). simpl in Hn. lia.
    + rewrite !replace_spaces_other by exact Hc. f_equal.
      apply (IH (length a)); [simpl in Hn; lia | reflexivity].
Qed.

End BlankFacts.

(* ===================================================================== *)
(** * More theorems: the watchlist panel *)
(* ===================================================================== *)

Module WatchlistMore.
Import WatchlistPanel WatchlistView.

Section WithRuntime.
Context `{Runtime}.

Lemma is_empty_nil (s : jsstring) : is_empty s = true <-> s = [].
Proof. destruct s; simpl; split; congruence. Qed.

Lemma handleRemove_list st games id :
  handleRemove st games id =
  {| next := st; changed := Some (filter (fun g => Game.id g <> id) games) |}.
Proof. reflexivity. Qed.

(** A filter that every element passes changes nothing. *)
Lemma filter_other_ids games id :
  id ∉ map Game.id games ->
  filter (fun g : Game.t => Game.id g <> id) games = games.
Proof.
  induction games as [|g rest IH]; intros Hn; [reflexivity|].
  rewrite filter_cons_True.
  - f_equal. apply IH. intros Hin. apply Hn. now right.
  - intros Heq. apply Hn. rewrite <- Heq. now left.
Qed.

(** X4: [handleAdd] adds nothing exactly when the title field holds
    nothing but whitespace (the empty title included); then both fields
    and the busy flag stay as they are, whatever the lookup would have
    answered. *)
Theorem handleAdd_ignores_blank_titles st games api :
  (changed (handleAdd st games api) = None
   <-> Forall (fun c => is_space c = true) (title st))
  /\ (changed (handleAdd st games api) = None ->
      next (handleAdd st games api) = st).
Proof.
  unfold handleAdd.
  destruct (is_empty (trim (title st))) eqn:Hb; simpl.
  - apply is_empty_nil in Hb. apply BlankFacts.trim_nil in Hb. tauto.
  - split; [|discriminate]. split; [discriminate|].
    intros Hs. apply BlankFacts.trim_nil in Hs.
    rewrite Hs in Hb. discriminate.
Qed.

(** X5: when the lookup finds a game with a name and an appid, the game
    that is added is titled by the name found and carries the appid, as
    a string, for [external_id]; its id is still made from the title the
    user typed, not from the name found. *)
Theorem lookup_success_enriches st games api game rest c n a :
  is_empty (trim (title st)) = false ->
  api {| q := trim (title st); limit := 1 |}
  = resolved (value (value game :: rest)) ->
  name game = value (c :: n) ->
  appid game = value a ->
  toString a <> [] ->
  exists g,
    changed (handleAdd st games api) = Some (games ++ [g])
    /\ Game.title g = c :: n
    /\ Game.external_id g = value (toString a)
    /\ Game.id g = replace_spaces (toLowerCase (title st)).
Proof.
  intros Hb Hapi Hname Happid Hstr.
  eexists. rewrite (WatchlistFacts.handleAdd_appends _ _ _ Hb).
  split; [reflexivity|].
  unfold searchSteamGame. rewrite Hapi. simpl.
  rewrite Hname, Happid. simpl.
  destruct (toString a) as [|x xs]; [congruence|]. repeat split.
Qed.

(** X6: [handleRemove] hands [onChange] the games whose id differs from
    the one given, in their order: a game is kept exactly when it was in
    the list under another id.  Unique ids stay unique, an id that no
    game has leaves the list as it is, and the fields of the panel are
    not touched. *)
Theorem handleRemove_removes_the_id st games id :
  exists gs,
    handleRemove st games id = {| next := st; changed := Some gs |}
    /\ (forall g, g ∈ gs <-> g ∈ games /\ Game.id g <> id)
    /\ gs `sublist_of` games
    /\ (NoDup (map Game.id games) -> NoDup (map Game.id gs))
    /\ (id ∉ map Game.id games -> gs = games).
Proof.
  exists (filter (fun g => Game.id g <> id) games).
  split; [reflexivity|]. split; [|split; [|split]].
  - intros g. rewrite list_elem_of_filter. tauto.
  - apply sublist_filter.
  - intros Hnd. eapply sublist_NoDup; [exact Hnd|].
    change (Game.id <$> filter (fun g : Game.t => Game.id g <> id) games
            `sublist_of` Game.id <$> games).
    apply fmap_sublist, sublist_filter.
  - apply filter_other_ids.
Qed.

(** X7: when the ids of the list are pairwise distinct, the remove
    button of a row removes that row and no other. *)
Theorem click_remove_removes_the_row st games row g :
  NoDup (map Game.id games) ->
  games !! row = Some g ->
  click_remove st games row
  = {| next := st; changed := Some (delete row games) |}.
Proof.
  intros Hnd Hrow. unfold click_remove. rewrite Hrow, handleRemove_list.
  do 2 f_equal. revert row Hrow.
  induction games as [|h rest IH]; intros row Hrow; [discriminate|].
  apply NoDup_cons in Hnd as [Hh Hrest].
  destruct row as [|row]; simpl in Hrow.
  - injection Hrow as ->. rewrite filter_cons_False by tauto.
    simpl. now apply filter_other_ids.
  - rewrite filter_cons_True.
    + simpl. f_equal. now apply IH.
    + intros Heq. apply Hh. rewrite Heq.
      apply list_elem_of_lookup_2 in Hrow.
      change (Game.id g ∈ Game.id <$> rest). now apply list_elem_of_fmap_2.
Qed.

(** X8: removing the id of a game right after it was added gives the
    list back when that id was new; when it was taken, the older games
    with that id are removed as well. *)
Theorem remove_after_add st st' games api gs :
  changed (handleAdd st games api) = Some gs ->
  changed (handleRemove st' gs (game_id (title st)))
  = Some (filter (fun g => Game.id g <> game_id (title st)) games)
  /\ (game_id (title st) ∉ map Game.id games ->
      changed (handleRemove st' gs (game_id (title st))) = Some games).
Proof.
  intros Hc. apply WatchlistFacts.handleAdd_changed in Hc as [_ ->].
  rewrite handleRemove_list. cbn [changed].
  rewrite filter_app, filter_cons_False, filter_nil, app_nil_r
    by (cbn [newGame Game.id]; tauto).
  split; [reflexivity|]. intros Hn. now rewrite filter_other_ids.
Qed.

(** X9: the price line of a game as [handleAdd] made it: "price unknown"
    when the price field was empty, and otherwise the number read from
    the field, a blank and "RUB". *)
Theorem added_game_price_line st games api gs :
  changed (handleAdd st games api) = Some gs ->
  exists g,
    gs = games ++ [g]
    /\ price_label g
       = if is_empty (price st) then price_unknown
         else toString (Number (price st)) ++ js " RUB".
Proof.
  intros Hc. apply WatchlistFacts.handleAdd_changed in Hc as [_ ->].
  eexists. split; [reflexivity|].
  unfold price_label. cbn [newGame Game.current_price Game.currency].
  now destruct (is_empty (price st)).
Qed.

(** X13: the list of [App] takes the added game before the save is
    answered and keeps it when the save fails: the failure raises the
    error banner and rolls nothing back.  The events are not touched and
    the fields of the panel are cleared. *)
Theorem failed_save_keeps_the_added_game app panel api :
  is_empty (trim (title panel)) = false ->
  let out := App.add_game app panel api rejected in
  App.games (fst out)
  = App.games app ++ [newGame panel (searchSteamGame api (trim (title panel)))]
  /\ App.error (fst out) = Some App.save_error
  /\ App.events (fst out) = App.events app
  /\ snd out = {| title := []; price := []; loading := false |}.
Proof.
  intros Hb. cbv zeta. unfold App.add_game.
  rewrite (WatchlistFacts.handleAdd_appends _ _ _ Hb). repeat split.
Qed.

(** X14: two titles whose lowercase forms differ only in one run of
    whitespace, in its length or in the whitespace it is made of, get
    the same id. *)
Theorem ids_ignore_the_shape_of_whitespace t1 t2 a b ws1 ws2 :
  ws1 <> [] -> ws2 <> [] ->
  Forall (fun c => is_space c = true) ws1 ->
  Forall (fun c => is_space c = true) ws2 ->
  toLowerCase t1 = a ++ ws1 ++ b ->
  toLowerCase t2 = a ++ ws2 ++ b ->
  game_id t1 = game_id t2.
Proof.
  intros Hn1 Hn2 Hs1 Hs2 H1 H2. unfold game_id. rewrite H1, H2.
  now apply BlankFacts.replace_spaces_run.
Qed.

End WithRuntime.

Lemma lookup_success_enriches_witness :
  let st := Scenario.typed " portal2 " in
  is_empty (trim (title st)) = false
  /\ Cases.lookup_finds {| q := trim (title st); limit := 1 |}
     = resolved (value (value Cases.portal2 :: []))
  /\ exists g,
       changed (handleAdd st [] Cases.lookup_finds) = Some ([] ++ [g])
       /\ Game.title g = js "Portal 2"
       /\ Game.external_id g = value (toString (Int 620))
       /\ Game.id g = replace_spaces (toLowerCase (title st)).
Proof.
  cbv zeta. split; [reflexivity|]. split; [reflexivity|].
  apply (lookup_success_enriches (Scenario.typed " portal2 ") []
           Cases.lookup_finds Cases.portal2
           [] 80%N (js "ortal 2") (Int 620)).
  - reflexivity.
  - reflexivity.
  - reflexivity.
  - reflexivity.
  - discriminate.
Defined.

(** The appid is written in decimal; the id keeps the blanks typed
    around the title as hyphens. *)
Example enriched_game :
  let g := newGame (Scenario.typed " portal2 ")
             (searchSteamGame Cases.lookup_finds (js "portal2")) in
  Game.external_id g = value (js "620") /\ Game.id g = js "-portal2-".
Proof. split; reflexivity. Qed.

Lemma click_remove_removes_the_row_witness :
  let g := newGame (Scenario.typed "Hades") None in
  NoDup (map Game.id Cases.shelf)
  /\ Cases.shelf !! 1 = Some g
  /\ click_remove (Scenario.typed "") Cases.shelf 1
     = {| next := Scenario.typed ""; changed := Some (delete 1 Cases.shelf) |}.
Proof.
  cbv zeta.
  assert (Hnd : NoDup (map Game.id Cases.shelf)).
  { apply (bool_decide_unpack (NoDup (map Game.id Cases.shelf))).
    vm_compute. exact I. }
  split; [exact Hnd|]. split; [reflexivity|].
  apply (click_remove_removes_the_row (Scenario.typed "") Cases.shelf 1
           (newGame (Scenario.typed "Hades") None) Hnd).
  reflexivity.
Defined.

Lemma remove_after_add_witness :
  let st := Scenario.typed "Celeste" in
  let gs := Cases.shelf ++ [newGame st None] in
  changed (handleAdd st Cases.shelf Scenario.lookup_down) = Some gs
  /\ changed (handleRemove st gs (game_id (title st)))
     = Some (filter (fun g => Game.id g <> game_id (title st)) Cases.shelf)
  /\ (game_id (title st) ∉ map Game.id Cases.shelf ->
      changed (handleRemove st gs (game_id (title st))) = Some Cases.shelf).
Proof.
  cbv zeta. split; [reflexivity|].
  apply (remove_after_add (Scenario.typed "Celeste") (Scenario.typed "Celeste")
           Cases.shelf Scenario.lookup_down).
  reflexivity.
Defined.

Lemma added_game_price_line_witness :
  let st := Cases.priced "Portal 2" "499" in
  changed (handleAdd st [] Scenario.lookup_down) = Some [newGame st None]
  /\ exists g,
       [newGame st None] = [] ++ [g]
       /\ price_label g
          = if is_empty (price st) then price_unknown
            else toString (Number (price st)) ++ js " RUB".
Proof.
  cbv zeta. split; [reflexivity|].
  apply (added_game_price_line (Cases.priced "Portal 2" "499") []
           Scenario.lookup_down).
  reflexivity.
Defined.

(** The three rows of [Cases.shelf]. *)
Example shelf_rows :
  map snd (rows Cases.shelf)
  = [price_unknown; price_unknown; js "499 RUB"].
Proof. reflexivity. Qed.

Lemma failed_save_keeps_the_added_game_witness :
  let panel := Scenario.typed "Hades" in
  let out := App.add_game Scenario.empty_app panel Scenario.lookup_down rejected in
  is_empty (trim (title panel)) = false
  /\ App.games (fst out)
     = App.games Scenario.empty_app
       ++ [newGame panel (searchSteamGame Scenario.lookup_down (trim (title panel)))]
  /\ App.error (fst out) = Some App.save_error
  /\ App.events (fst out) = App.events Scenario.empty_app
  /\ snd out = {| title := []; price := []; loading := false |}.
Proof.
  cbv zeta. split; [reflexivity|].
  apply (failed_save_keeps_the_added_game Scenario.empty_app
           (Scenario.typed "Hades") Scenario.lookup_down).
  reflexivity.
Defined.

Lemma ids_ignore_the_shape_of_whitespace_witness :
  let t1 := js "Doom  Eternal" in
  let t2 := js "DOOM" ++ [9%N] ++ js "eternal" in
  js "  " <> [] /\ [9%N] <> []
  /\ Forall (fun c => is_space c = true) (js "  ")
  /\ Forall (fun c => is_space c = true) [9%N]
  /\ toLowerCase t1 = js "doom" ++ js "  " ++ js "eternal"
  /\ toLowerCase t2 = js "doom" ++ [9%N] ++ js "eternal"
  /\ game_id t1 = game_id t2.
Proof.
  cbv zeta.
  assert (H1 : Forall (fun c => is_space c = true) (js "  ")).
  { repeat constructor. }
  assert (H2 : Forall (fun c => is_space c = true) [9%N]).
  { repeat constructor. }
  split; [discriminate|]. split; [discriminate|].
  split; [exact H1|]. split; [exact H2|].
  split; [reflexivity|]. split; [reflexivity|].
  apply (ids_ignore_the_shape_of_whitespace
           (js "Doom  Eternal") (js "DOOM" ++ [9%N] ++ js "eternal")
           (js "doom") (js "eternal") (js "  ") [9%N]).
  - discriminate.
  - discriminate.
  - exact H1.
  - exact H2.
  - reflexivity.
  - reflexivity.
Defined.

End WatchlistMore.

(* ===================================================================== *)
(** * More theorems: the chat panel *)
(* ===================================================================== *)

Module ChatMore.
Import ChatPanel ChatMachine.

(** Outside its guard [handleSend] shows the trimmed message, clears
    the field, raises the busy flag and posts the history as it was. *)
Lemma handleSend_begin_posts st :
  trim (input st) <> [] -> sending st = false ->
  handleSend_begin st
  = ({| messages := messages st ++ [{| role := user; content := trim (input st) |}];
        input := [];
        sending := true |},
     Some {| history := messages st; user_message := trim (input st) |}).
Proof.
  intros Ht Hs.
  destruct (handleSend_begin st) as [st1 [req|]] eqn:Hb.
  - pose proof (ChatFacts.handleSend_begin_history _ _ _ Hb) as (Hh & Hu & _).
    destruct req as [h u]. simpl in Hh, Hu. subst h u.
    unfold handleSend_begin in Hb. rewrite Hs, orb_false_r in Hb.
    destruct (is_empty (trim (input st))); [discriminate|].
    now injection Hb as <- _.
  - unfold handleSend_begin in Hb. rewrite Hs, orb_false_r in Hb.
    destruct (trim (input st)); [congruence | discriminate].
Qed.

(** Inside its guard it does nothing. *)
Lemma handleSend_begin_guarded st :
  trim (input st) = [] \/ sending st = true ->
  handleSend_begin st = (st, None).
Proof.
  intros Hg. unfold handleSend_begin.
  assert (Hb : is_empty (trim (input st)) || sending st = true).
  { destruct Hg as [-> | ->]; [reflexivity | apply orb_true_r]. }
  now rewrite Hb.
Qed.

(** X1: a run of [handleSend] that passes the guard posts one request,
    made of the messages as they were and of the trimmed input, and
    appends exactly two messages: the trimmed input as the user, then
    one message of the assistant, the reply when the request succeeds
    and the fixed error text when it fails.  The field is cleared and
    the busy flag is down again in both cases; the events of the reply
    are handed on once when there are any, and never on a failure. *)
Theorem handleSend_posted_run st backend :
  trim (input st) <> [] -> sending st = false ->
  let text := trim (input st) in
  let req := {| history := messages st; user_message := text |} in
  let run := handleSend st backend in
  posted run = [req]
  /\ input (final run) = []
  /\ sending (final run) = false
  /\ match backend req with
     | resolved data =>
         messages (final run)
         = messages st ++ [{| role := user; content := text |};
                           {| role := assistant; content := reply data |}]
         /\ appended run
            = match nullish (events data) [] with
              | [] => []
              | e :: evs => [e :: evs]
              end
     | rejected =>
         messages (final run)
         = messages st ++ [{| role := user; content := text |};
                           {| role := assistant; content := backend_error |}]
         /\ appended run = []
     end.
Proof.
  intros Ht Hs. cbv zeta. unfold handleSend.
  rewrite (handleSend_begin_posts st Ht Hs).
  destruct (backend _) as [|data]; cbn; rewrite <- app_assoc;
    repeat split.
  now destruct (nullish (events data) []).
Qed.

Lemma handleSend_posted_run_witness :
  let st := Cases.asking in
  let text := trim (input st) in
  let req := {| history := messages st; user_message := text |} in
  let run := handleSend st Cases.chat_up in
  trim (input st) <> [] /\ sending st = false
  /\ posted run = [req]
  /\ input (final run) = []
  /\ sending (final run) = false
  /\ match Cases.chat_up req with
     | resolved data =>
         messages (final run)
         = messages st ++ [{| role := user; content := text |};
                           {| role := assistant; content := reply data |}]
         /\ appended run
            = match nullish (events data) [] with
              | [] => []
              | e :: evs => [e :: evs]
              end
     | rejected =>
         messages (final run)
         = messages st ++ [{| role := user; content := text |};
                           {| role := assistant; content := backend_error |}]
         /\ appended run = []
     end.
Proof.
  cbv zeta. split; [discriminate|]. split; [reflexivity|].
  apply (handleSend_posted_run Cases.asking Cases.chat_up).
  - discriminate.
  - reflexivity.
Defined.

Lemma exchanges_next k :
  exchanges k ++ [user; assistant] = exchanges (S k).
Proof.
  unfold exchanges. rewrite replicate_S_end, concat_app. simpl.
  now rewrite ?app_nil_r.
Qed.

Lemma coherent_start : coherent start.
Proof.
  split; [|split].
  - simpl. split; [discriminate | intros [? [=]]].
  - now exists 0.
  - constructor.
Qed.

Lemma coherent_retype m text : coherent m -> coherent (retype m text).
Proof. intros H. exact H. Qed.

Lemma coherent_send m : coherent m -> coherent (send m).
Proof.
  intros Hm. unfold send.
  destruct (decide (trim (input (panel m)) = [])) as [Hblank|Htext].
  { rewrite handleSend_begin_guarded by now left. exact Hm. }
  destruct (sending (panel m)) eqn:Hs.
  { rewrite handleSend_begin_guarded by now right. exact Hm. }
  destruct Hm as (Hbusy & (k & Hk) & Hlog).
  rewrite (handleSend_begin_posts _ Htext Hs).
  assert (Hnone : in_flight m = None).
  { destruct (in_flight m) eqn:Hf; [|reflexivity].
    assert (Hyes : is_Some (Some c)) by eauto.
    apply Hbusy in Hyes. congruence. }
  rewrite Hnone, app_nil_r in Hk.
  split; [|split]; cbn.
  - split; [eauto | reflexivity].
  - exists k. now rewrite map_app, Hk.
  - apply Forall_app. split.
    + eapply Forall_impl; [exact Hlog|]. intros req [Hsound Hpre].
      split; [exact Hsound | now apply prefix_app_r].
    + constructor; [|constructor]. cbn. split.
      * split; [now exists k | exact Htext].
      * now apply prefix_app_r.
Qed.

Lemma coherent_step m ev : coherent m -> coherent (step m ev).
Proof.
  intros Hm. destruct ev as [text|q| |e|res]; cbn [step].
  - now apply coherent_retype.
  - now apply coherent_retype.
  - destruct (sending (panel m)); [exact Hm | now apply coherent_send].
  - destruct (sends e); [now apply coherent_send | exact Hm].
  - destruct (in_flight m) as [req|] eqn:Hf; [|exact Hm].
    destruct Hm as (Hbusy & (k & Hk) & Hlog). rewrite Hf in Hk.
    assert (Hend : exists text,
               handleSend_end (panel m) res
               = ({| messages := messages (panel m)
                                 ++ [{| role := assistant; content := text |}];
                     input := input (panel m);
                     sending := false |},
                  snd (handleSend_end (panel m) res))).
    { destruct res as [|data]; eexists; reflexivity. }
    destruct Hend as [text Hend]. rewrite Hend.
    split; [|split]; cbn.
    + split; [discriminate | intros [? [=]]].
    + exists (S k). rewrite map_app, Hk, app_nil_r, <- app_assoc.
      apply exchanges_next.
    + eapply Forall_impl; [exact Hlog|]. intros r [Hsound Hpre].
      split; [exact Hsound | now apply prefix_app_r].
Qed.

Lemma coherent_run events m : coherent m -> coherent (run events m).
Proof.
  unfold run. revert m.
  induction events as [|ev events IH]; intros m Hm; [exact Hm|].
  simpl. apply IH. now apply coherent_step.
Qed.

(** X2: whatever the user types, clicks and presses, and whenever the
    backend answers, the panel stays coherent: the busy flag is up
    exactly while a request is in flight, the messages alternate between
    the assistant and the user from the greeting on, and every request
    that was posted carried a non-empty message and a history that
    began with the greeting, alternated, ended with the assistant and is
    still the beginning of the messages shown. *)
Theorem chat_panel_stays_coherent events :
  coherent (run events start).
Proof. apply coherent_run, coherent_start. Qed.

(** X3: while a request is in flight no event posts another one: the
    log of requests stays as it is, and only the answer of the backend
    ends the flight. *)
Theorem no_second_request_in_flight events ev :
  is_Some (in_flight (run events start)) ->
  log (step (run events start) ev) = log (run events start)
  /\ (is_Some (in_flight (step (run events start) ev))
      \/ exists res, ev = Settles res).
Proof.
  intros Hf. pose proof (coherent_run events start coherent_start) as (Hbusy & _).
  set (m := run events start) in *.
  pose proof (proj2 Hbusy Hf) as Hs.
  assert (Hsend : send m = m).
  { unfold send. now rewrite handleSend_begin_guarded by now right. }
  destruct ev as [text|q| |e|res]; cbn [step].
  - split; [reflexivity | now left].
  - split; [reflexivity | now left].
  - rewrite Hs. split; [reflexivity | now left].
  - destruct (sends e); rewrite ?Hsend; (split; [reflexivity | now left]).
  - destruct Hf as [req Hreq]. rewrite Hreq.
    destruct (handleSend_end (panel m) res) as [st2 calls].
    split; [reflexivity | right; eauto].
Qed.

Lemma no_second_request_in_flight_witness :
  let events := [Typed (js "any news?"); SendClicked; Typed (js "hello?")] in
  is_Some (in_flight (run events start))
  /\ log (step (run events start) (KeyDown Cases.enter)) = log (run events start)
  /\ (is_Some (in_flight (step (run events start) (KeyDown Cases.enter)))
      \/ exists res, KeyDown Cases.enter = Settles res).
Proof.
  cbv zeta.
  assert (Hf : is_Some (in_flight
                 (run [Typed (js "any news?"); SendClicked; Typed (js "hello?")]
                    start))).
  { vm_compute. eauto. }
  split; [exact Hf|].
  apply (no_second_request_in_flight
           [Typed (js "any news?"); SendClicked; Typed (js "hello?")]
           (KeyDown Cases.enter) Hf).
Defined.

(** Enter sends what the button sends; Shift+Enter sends nothing. *)
Example enter_sends :
  let typed := run [QuickAction TrendsRpg] start in
  step typed (KeyDown Cases.enter) = step typed SendClicked
  /\ log (step typed (KeyDown Cases.enter))
     = [{| history := messages initial; user_message := quick_text TrendsRpg |}]
  /\ step typed (KeyDown {| key := js "Enter"; shiftKey := true |}) = typed.
Proof. vm_compute. repeat split. Qed.

(** The events [App] holds after a chat turn. *)
Lemma chat_turn_events `{Runtime} (app : App.State) run :
  App.events (App.chat_turn app run)
  = App.events app ++ concat (appended run)
  /\ App.games (App.chat_turn app run) = App.games app.
Proof.
  unfold App.chat_turn. revert app.
  induction (appended run) as [|evs calls IH]; intros app; simpl.
  - now rewrite app_nil_r.
  - destruct (IH (App.onEventsAppended app evs)) as [-> ->].
    simpl. now rewrite app_assoc.
Qed.

(** X10: the events a reply carries are drawn by the events panel above
    every event [App] held before, the last of them first; the games of
    [App] are not touched. *)
Theorem reply_events_are_drawn_first `{Runtime} (app : App.State) st backend data :
  trim (input st) <> [] -> sending st = false ->
  backend {| history := messages st; user_message := trim (input st) |}
  = resolved data ->
  let app' := App.chat_turn app (handleSend st backend) in
  EventsPanel.rendered (App.events app')
  = rev (nullish (events data) []) ++ EventsPanel.rendered (App.events app)
  /\ App.games app' = App.games app.
Proof.
  intros Ht Hs Hres. cbv zeta.
  destruct (chat_turn_events app (handleSend st backend)) as [-> ->].
  split; [|reflexivity].
  pose proof (handleSend_begin_posts st Ht Hs) as Hb.
  unfold EventsPanel.rendered, handleSend. rewrite Hb, Hres. cbn.
  rewrite rev_app_distr. f_equal.
  destruct (nullish (events data) []); simpl; [reflexivity|].
  now rewrite app_nil_r.
Qed.

Lemma reply_events_are_drawn_first_witness :
  let app :=
    App.onEventsAppended Scenario.empty_app [Cases.event "e0"] in
  let st := Cases.asking in
  let data := {| reply := js "Portal is cheaper now.";
                 events := value [Cases.event "e1"; Cases.event "e2"] |} in
  let app' := App.chat_turn app (handleSend st Cases.chat_up) in
  trim (input st) <> [] /\ sending st = false
  /\ Cases.chat_up {| history := messages st; user_message := trim (input st) |}
     = resolved data
  /\ EventsPanel.rendered (App.events app')
     = rev (nullish (events data) []) ++ EventsPanel.rendered (App.events app)
  /\ App.games app' = App.games app.
Proof.
  cbv zeta. split; [discriminate|]. split; [reflexivity|].
  split; [reflexivity|].
  apply (reply_events_are_drawn_first
           (App.onEventsAppended Scenario.empty_app [Cases.event "e0"])
           Cases.asking Cases.chat_up
           {| reply := js "Portal is cheaper now.";
              events := value [Cases.event "e1"; Cases.event "e2"] |}).
  - discriminate.
  - reflexivity.
  - reflexivity.
Defined.

End ChatMore.

(* ===================================================================== *)
(** * More theorems: App *)
(* ===================================================================== *)

Module AppMore.
Import AppActions.

Section WithRuntime.
Context `{Runtime}.

Lemma run_app l1 l2 app : run (l1 ++ l2) app = run l2 (run l1 app).
Proof. apply fold_left_app. Qed.

(** [updateWatchlist] as one step is its two actions with nothing in
    between. *)
Lemma updateWatchlist_run app updatedGames saved :
  App.updateWatchlist app updatedGames saved
  = run [WatchlistChanged updatedGames; SaveSettled saved] app.
Proof. now destruct saved. Qed.

(** So is [loadInitialData]. *)
Lemma loadInitialData_run app watchlistRes eventsRes :
  loadInitialData app watchlistRes eventsRes
  = run [LoadStarted; LoadSettled watchlistRes eventsRes] app.
Proof. reflexivity. Qed.

(** Nothing but [loadInitialData] moves the busy flag. *)
Lemma run_keeps_loading actions app :
  Forall (fun a => is_load a = false) actions ->
  App.loading (run actions app) = App.loading app.
Proof.
  unfold run. revert app.
  induction actions as [|a actions IH]; intros app Hall; [reflexivity|].
  simpl. rewrite IH by now apply Forall_inv_tail in Hall.
  apply Forall_inv in Hall.
  destruct a as [|w e|e|gs|saved|evs]; try discriminate.
  - now destruct e.
  - reflexivity.
  - now destruct saved.
  - reflexivity.
Qed.

(** Without a load the error banner changes only when a save fails. *)
Lemma run_error actions app :
  Forall (fun a => is_load a = false) actions ->
  App.error (run actions app)
  = if existsb is_failed_save actions then Some App.save_error
    else App.error app.
Proof.
  unfold run. revert app.
  induction actions as [|a actions IH]; intros app Hall; [reflexivity|].
  simpl. rewrite IH by now apply Forall_inv_tail in Hall.
  apply Forall_inv in Hall.
  destruct a as [|w e|e|gs|saved|evs]; try discriminate.
  - cbn. now destruct e.
  - reflexivity.
  - destruct saved; cbn; [|reflexivity].
    now destruct (existsb is_failed_save actions).
  - reflexivity.
Qed.

(** X11: [loadInitialData] with what happens while its requests are in
    flight.  The busy flag is up until the requests settle and down
    afterwards.  When both requests succeed and the watchlist answer has
    a body, the games and the events are those of the answers (a missing
    list counts as empty), whatever the panels did to the lists in the
    meantime; the error banner is not touched, so that it shows the save
    error exactly when a save failed in the meantime.  In every other
    case both lists stay as they were when the requests settled and the
    banner shows the load error. *)
Theorem load_settles_over_what_happened_in_flight
    between app watchlistRes eventsRes :
  Forall (fun a => is_load a = false) between ->
  let mid := run (LoadStarted :: between) app in
  let app' := run (LoadStarted :: between ++ [LoadSettled watchlistRes eventsRes]) app in
  App.loading mid = true
  /\ App.loading app' = false
  /\ ((exists body data,
         watchlistRes = resolved (value body)
         /\ eventsRes = resolved data
         /\ App.games app' = nullish (games body) []
         /\ App.events app' = nullish data []
         /\ App.error app'
            = if existsb is_failed_save between then Some App.save_error
              else None)
      \/ ((watchlistRes = rejected \/ watchlistRes = resolved undefined
           \/ watchlistRes = resolved null \/ eventsRes = rejected)
          /\ App.games app' = App.games mid
          /\ App.events app' = App.events mid
          /\ App.error app' = Some load_error)).
Proof.
  intros Hall. cbv zeta.
  change (LoadStarted :: between ++ [LoadSettled watchlistRes eventsRes])
    with ((LoadStarted :: between) ++ [LoadSettled watchlistRes eventsRes]).
  rewrite run_app.
  change (run (LoadStarted :: between) app)
    with (run between (loadInitialData_started app)).
  pose proof (run_keeps_loading between (loadInitialData_started app) Hall)
    as Hl.
  pose proof (run_error between (loadInitialData_started app) Hall) as He.
  set (mid := run between (loadInitialData_started app)) in *.
  split; [exact Hl|].
  change (run [LoadSettled watchlistRes eventsRes] mid)
    with (loadInitialData_settled mid watchlistRes eventsRes).
  destruct watchlistRes as [|[| |body]], eventsRes as [|data]; cbn;
    (split; [reflexivity|]);
    try (right; split; [tauto | now repeat split]).
  left. exists body, data. now repeat split.
Qed.

Lemma step_keeps_error app a :
  is_load a = false -> is_Some (App.error app) ->
  is_Some (App.error (step app a)).
Proof.
  intros Hl He. destruct a as [|w e|e|gs|saved|evs]; try discriminate.
  - now destruct e.
  - exact He.
  - destruct saved; cbn; eauto.
  - exact He.
Qed.

(** X12: once the error banner is up, only a load takes it down: it
    stays through every poll, every chat event and every later change
    of the watchlist, a change that is saved successfully included. *)
Theorem only_a_load_clears_the_error actions app :
  Forall (fun a => is_load a = false) actions ->
  is_Some (App.error app) ->
  is_Some (App.error (run actions app)).
Proof.
  unfold run. revert app.
  induction actions as [|a actions IH]; intros app Hall He; [exact He|].
  simpl. apply IH.
  - now apply Forall_inv_tail in Hall.
  - apply step_keeps_error; [now apply Forall_inv in Hall | exact He].
Qed.

Lemma step_background app a :
  is_background a = true ->
  App.games (step app a) = App.games app
  /\ App.loading (step app a) = App.loading app
  /\ App.error (step app a) = App.error app.
Proof.
  intros Hb. destruct a as [|w e|e|gs|saved|evs]; try discriminate.
  - now destruct e.
  - now repeat split.
Qed.

(** A failed poll leaves the whole state as it was. *)
Lemma step_failed_poll app a :
  is_failed_poll a = true -> step app a = app.
Proof.
  destruct a as [|w e|[|data]|gs|saved|evs]; try discriminate. reflexivity.
Qed.

Lemma run_without_failed_polls actions app :
  run actions app = run (without_failed_polls actions) app.
Proof.
  unfold run, without_failed_polls. revert app.
  induction actions as [|a actions IH]; intros app; [reflexivity|].
  cbn [List.filter fold_left].
  destruct (is_failed_poll a) eqn:Hf; cbn [negb].
  - rewrite step_failed_poll by exact Hf. apply IH.
  - cbn [fold_left]. apply IH.
Qed.

(** X15: the interval and the chat never change the games, the busy
    flag or the error banner; a poll that fails changes nothing at all,
    the events included: the state is the one reached with the failed
    polls left out. *)
Theorem background_leaves_the_watchlist actions app :
  Forall (fun a => is_background a = true) actions ->
  App.games (run actions app) = App.games app
  /\ App.loading (run actions app) = App.loading app
  /\ App.error (run actions app) = App.error app
  /\ run actions app = run (without_failed_polls actions) app.
Proof.
  intros Hall. split; [|split; [|split]];
    [| | |apply run_without_failed_polls];
    revert app; unfold run;
    (induction actions as [|a actions IH]; intros app; [reflexivity|]);
    simpl; rewrite (IH (Forall_inv_tail Hall));
    now apply step_background, (Forall_inv Hall).
Qed.

End WithRuntime.

Lemma load_settles_over_what_happened_in_flight_witness :
  let between :=
    [WatchlistChanged Cases.shelf; Tick rejected; SaveSettled rejected] in
  let watchlistRes := resolved (value {| games := value [] |}) in
  let eventsRes := resolved (value [Cases.event "e0"]) in
  let mid := run (LoadStarted :: between) Scenario.empty_app in
  let app' :=
    run (LoadStarted :: between ++ [LoadSettled watchlistRes eventsRes])
      Scenario.empty_app in
  Forall (fun a => is_load a = false) between
  /\ App.loading mid = true
  /\ App.loading app' = false
  /\ ((exists body data,
         watchlistRes = resolved (value body)
         /\ eventsRes = resolved data
         /\ App.games app' = nullish (games body) []
         /\ App.events app' = nullish data []
         /\ App.error app'
            = if existsb is_failed_save between then Some App.save_error
              else None)
      \/ ((watchlistRes = rejected \/ watchlistRes = resolved undefined
           \/ watchlistRes = resolved null \/ eventsRes = rejected)
          /\ App.games app' = App.games mid
          /\ App.events app' = App.events mid
          /\ App.error app' = Some load_error)).
Proof.
  cbv zeta.
  assert (Hall : Forall (fun a => is_load a = false)
            [WatchlistChanged Cases.shelf; Tick rejected;
             SaveSettled rejected]).
  { repeat constructor. }
  split; [exact Hall|].
  apply (load_settles_over_what_happened_in_flight
           [WatchlistChanged Cases.shelf; Tick rejected; SaveSettled rejected]
           Scenario.empty_app
           (resolved (value {| games := value [] |}))
           (resolved (value [Cases.event "e0"]))
           Hall).
Defined.

(** A save that fails while a load is in flight: the load succeeds, the
    list shown is the one of the server and the banner shows the save
    error. *)
Example failed_save_during_a_load :
  let app' :=
    run [LoadStarted;
         WatchlistChanged Cases.shelf;
         SaveSettled rejected;
         LoadSettled (resolved (value {| games := value [] |}))
                     (resolved (value []))]
      Scenario.empty_app in
  App.games app' = []
  /\ App.error app' = Some App.save_error
  /\ App.loading app' = false.
Proof. repeat split. Qed.

(** With nothing in between, a load that succeeds leaves no error. *)
Example load_alone_clears_the_error :
  let app := App.updateWatchlist Scenario.empty_app [] rejected in
  App.error app = Some App.save_error
  /\ App.error
       (loadInitialData app (resolved (value {| games := null |}))
          (resolved undefined)) = None.
Proof. split; reflexivity. Qed.

Lemma only_a_load_clears_the_error_witness :
  let app := App.updateWatchlist Scenario.empty_app [] rejected in
  let actions :=
    [WatchlistChanged Cases.shelf; SaveSettled (resolved tt); Tick rejected;
     EventsAppended [Cases.event "e1"]; Tick (resolved (value []))] in
  Forall (fun a => is_load a = false) actions
  /\ is_Some (App.error app)
  /\ is_Some (App.error (run actions app)).
Proof.
  cbv zeta.
  assert (Hall : Forall (fun a => is_load a = false)
            [WatchlistChanged Cases.shelf; SaveSettled (resolved tt);
             Tick rejected; EventsAppended [Cases.event "e1"];
             Tick (resolved (value []))]).
  { repeat constructor. }
  assert (He : is_Some (App.error
                 (App.updateWatchlist Scenario.empty_app [] rejected))).
  { cbn. eauto. }
  split; [exact Hall|]. split; [exact He|].
  apply (only_a_load_clears_the_error _ _ Hall He).
Defined.

Lemma background_leaves_the_watchlist_witness :
  let app := App.updateWatchlist Scenario.empty_app Cases.shelf rejected in
  let actions :=
    [Tick rejected; EventsAppended [Cases.event "e1"];
     Tick (resolved undefined); Tick rejected] in
  Forall (fun a => is_background a = true) actions
  /\ App.games (run actions app) = App.games app
  /\ App.loading (run actions app) = App.loading app
  /\ App.error (run actions app) = App.error app
  /\ run actions app
     = run [EventsAppended [Cases.event "e1"]; Tick (resolved undefined)] app.
Proof.
  cbv zeta.
  assert (Hall : Forall (fun a => is_background a = true)
            [Tick rejected; EventsAppended [Cases.event "e1"];
             Tick (resolved undefined); Tick rejected]).
  { repeat constructor. }
  split; [exact Hall|].
  apply (background_leaves_the_watchlist _
           (App.updateWatchlist Scenario.empty_app Cases.shelf rejected)
           Hall).
Defined.

(** A poll that succeeds replaces the events: what the chat appended is
    kept only if the backend reports it. *)
Example poll_replaces_chat_events :
  let app := App.onEventsAppended Scenario.empty_app [Cases.event "e1"] in
  App.events (poll app (resolved (value [Cases.event "e0"]))) = [Cases.event "e0"]
  /\ App.events (poll app rejected) = [Cases.event "e1"].
Proof. split; reflexivity. Qed.

End AppMore.
